(** * Fungi taxonomy: the frame store and the recursive tree view

    The development has two halves, following the repository:

    - [Module Store] embeds [data/fungi-taxonomy.js]: the constructor
      [createTaxonFrame], the assignments that link child frames into
      their parents' [children] objects, and the exported root
      [fungiTaxonomy].  JavaScript objects are mutable and shared, so the
      module carries an explicit heap of objects and every frame is a
      location in it.

    - [Module View] embeds [app/components/TaxonomyLevel.tsx]: the
      function component, its two [useState] cells and the two click
      handlers, over the [Taxon] interface the component declares. *)

From Stdlib Require Import ZArith NArith Ascii String Floats Sorted Lia.
From stdpp Require Import base option list strings gmap fin_maps pretty.

Set Warnings "-register-all".

Local Open Scope string_scope.
Local Open Scope list_scope.

(** ** JavaScript values and ordinary objects *)

Definition loc := nat.

(** A JavaScript value.  Numbers are kept to the integers and NaN:
    enough to tell the falsy numbers from the truthy ones, which is all
    the store ever asks of a number. *)
Inductive value :=
| VUndefined
| VNull
| VBool (b : bool)
| VNum (z : Z)
| VNaN
| VStr (s : string)
| VObj (l : loc).

#[global] Instance value_eq_dec : EqDecision value.
Proof. solve_decision. Defined.

(** ToBoolean: [undefined], [null], [false], [0], [NaN] and the empty
    string are falsy; everything else, every object included, is truthy. *)
Definition truthy (v : value) : bool :=
  match v with
  | VUndefined | VNull | VNaN => false
  | VBool b => b
  | VNum z => negb (z =? 0)%Z
  | VStr s => negb (String.eqb s "")
  | VObj _ => true
  end.

(** An ordinary object: its own data properties, in creation order.  The
    accessors an object inherits from [Object.prototype] are outside the
    model. *)
Abbreviation obj := (list (string * value)).

Fixpoint get_prop {A} (o : list (string * A)) (k : string) : option A :=
  match o with
  | [] => None
  | (k', v) :: o' => if String.eqb k' k then Some v else get_prop o' k
  end.

(** [o[k] = v]: an existing property keeps its place and takes the new
    value; a new property goes to the end. *)
Fixpoint set_prop {A} (o : list (string * A)) (k : string) (v : A)
  : list (string * A) :=
  match o with
  | [] => [(k, v)]
  | (k', v') :: o' =>
      if String.eqb k' k then (k, v) :: o' else (k', v') :: set_prop o' k v
  end.

(** Reading [o.k] where the property may be missing. *)
Definition read_prop (o : obj) (k : string) : value :=
  default VUndefined (get_prop o k).

(** *** Property enumeration order

    [Object.keys] and [Object.entries] list the keys that are array
    indices first, in ascending numeric order, and then the other string
    keys in creation order. *)

Definition digit_of (a : ascii) : option N :=
  let n := N_of_ascii a in
  if ((48 <=? n) && (n <=? 57))%N then Some (n - 48)%N else None.

Fixpoint parse_digits (s : string) (acc : N) : option N :=
  match s with
  | EmptyString => Some acc
  | String a s' =>
      match digit_of a with
      | Some d => parse_digits s' (10 * acc + d)%N
      | None => None
      end
  end.

(** A canonical array index: decimal digits without a leading zero (the
    string ["0"] apart), naming a number below [2^32 - 1]. *)
Definition array_index (s : string) : option N :=
  match s with
  | EmptyString => None
  | String a s' =>
      if (Ascii.eqb a "0" && negb (String.eqb s' ""))%bool then None
      else
        match parse_digits s 0 with
        | Some n => if (n <? 4294967295)%N then Some n else None
        | None => None
        end
  end.

Fixpoint insert_index {A} (n : N) (e : string * A)
  (l : list (N * (string * A))) : list (N * (string * A)) :=
  match l with
  | [] => [(n, e)]
  | (m, e') :: l' =>
      if (n <? m)%N then (n, e) :: l else (m, e') :: insert_index n e l'
  end.

Fixpoint index_entries {A} (o : list (string * A)) : list (N * (string * A)) :=
  match o with
  | [] => []
  | (k, v) :: o' =>
      match array_index k with
      | Some n => insert_index n (k, v) (index_entries o')
      | None => index_entries o'
      end
  end.

Fixpoint string_entries {A} (o : list (string * A)) : list (string * A) :=
  match o with
  | [] => []
  | (k, v) :: o' =>
      match array_index k with
      | Some _ => string_entries o'
      | None => (k, v) :: string_entries o'
      end
  end.

Definition Object_entries {A} (o : list (string * A)) : list (string * A) :=
  map snd (index_entries o) ++ string_entries o.

Definition Object_keys {A} (o : list (string * A)) : list string :=
  map fst (Object_entries o).

(** Whether a key is an array index, and the order of two such keys by
    the numbers they name. *)
Definition is_index_key (k : string) : bool :=
  match array_index k with
  | Some _ => true
  | None => false
  end.

Definition index_le {A} (a b : string * A) : Prop :=
  match array_index (fst a), array_index (fst b) with
  | Some m, Some n => (m <= n)%N
  | _, _ => False
  end.

(** ** The frame store *)

Module Store.

(** The prototype of an object: [Object.prototype], which every object
    literal gets, [null], or an object of the heap. *)
Inductive proto :=
| ObjectPrototype
| NullPrototype
| ProtoObj (l : loc).

#[global] Instance proto_eq_dec : EqDecision proto.
Proof. solve_decision. Defined.

(** The heap: the own data properties of every object, and the prototype
    of every object whose prototype was replaced (an object without an
    entry in [protos] has [Object.prototype]). *)
Record heap := Heap {
  objects : gmap loc obj;
  protos : gmap loc proto
}.

(** [h !! l] is the own properties of the object at [l]; [<[l := o]> h]
    replaces them and leaves the prototypes alone. *)
#[global] Instance heap_lookup : Lookup loc obj heap :=
  fun l h => objects h !! l.

#[global] Instance heap_insert : Insert loc obj heap :=
  fun l o h => Heap (<[l := o]> (objects h)) (protos h).

#[global] Instance heap_empty : Empty heap := Heap ∅ ∅.

Definition proto_of (h : heap) (l : loc) : proto :=
  default ObjectPrototype (protos h !! l).

(** Heap computations: a state monad over the heap whose failure stands
    for a thrown [TypeError] (reading or writing a property of
    [undefined] or [null], creating a property on another primitive,
    giving an object a prototype that has the object on its chain). *)
Definition M (A : Type) : Type := heap -> option (A * heap).

Definition ret {A} (a : A) : M A := fun h => Some (a, h).

Definition bind {A B} (m : M A) (f : A -> M B) : M B :=
  fun h => match m h with
           | Some (a, h') => f a h'
           | None => None
           end.

Definition throw {A} : M A := fun _ => None.

Declare Scope js_scope.
Delimit Scope js_scope with js.
Notation "x <- m ;; k" := (bind m (fun x => k))
  (at level 100, m at next level, right associativity) : js_scope.
Notation "m ;;; k" := (bind m (fun _ => k))
  (at level 100, right associativity) : js_scope.
Local Open Scope js_scope.

(** An object literal [{ ... }]: a new object at a location the heap
    does not use, with [Object.prototype] as its prototype. *)
Definition alloc (o : obj) : M loc :=
  fun h => let l := fresh (dom (objects h) ∪ dom (protos h)) in
           Some (l, <[l := o]> h).

(** A prototype chain visits an object at most once (the [__proto__]
    setter below refuses a cycle), so the number of objects bounds the
    steps along it. *)
Definition chain_fuel (h : heap) : nat := size (objects h).

(** The property [k] of the object at [l], own or inherited from an
    object of its prototype chain.  [Object.prototype] is taken to have
    no property under [k]: true of the keys this program reads, [domain]
    and [children]. *)
Fixpoint lookup_chain (h : heap) (fuel : nat) (l : loc) (k : string)
  : option value :=
  match h !! l with
  | Some o =>
      match get_prop o k with
      | Some v => Some v
      | None =>
          match proto_of h l, fuel with
          | ProtoObj l', S n => lookup_chain h n l' k
          | _, _ => None
          end
      end
  | None => None
  end.

Definition read (h : heap) (l : loc) (k : string) : value :=
  default VUndefined (lookup_chain h (chain_fuel h) l k).

(** [v.k] for the keys this program reads: a [TypeError] on [undefined]
    and [null], [undefined] on the other primitives (their prototypes
    have neither key), and on an object the own or inherited
    property. *)
Definition get (v : value) (k : string) : M value :=
  match v with
  | VUndefined | VNull => throw
  | VObj l => fun h => match h !! l with
                       | Some _ => Some (read h l k, h)
                       | None => None
                       end
  | _ => ret VUndefined
  end.

(** Whether an assignment to [__proto__] on the object at [l] reaches
    the accessor [Object.prototype] has under that key: it does unless
    an own data property named [__proto__] of [l] or of an object on its
    chain comes first, or the chain ends in [null]. *)
Fixpoint finds_proto_setter (h : heap) (fuel : nat) (l : loc) : bool :=
  match h !! l with
  | Some o =>
      match get_prop o "__proto__" with
      | Some _ => false
      | None =>
          match proto_of h l, fuel with
          | ObjectPrototype, _ => true
          | NullPrototype, _ => false
          | ProtoObj l', S n => finds_proto_setter h n l'
          | ProtoObj _, O => false
          end
      end
  | None => false
  end.

(** Whether [l] is [p] or on the prototype chain of [p]. *)
Fixpoint on_chain (h : heap) (fuel : nat) (p l : loc) : bool :=
  (p =? l)%nat
  || match proto_of h p, fuel with
     | ProtoObj p', S n => on_chain h n p' l
     | _, _ => false
     end.

(** The setter of [Object.prototype.__proto__] called on the object at
    [l]: a value that is neither an object nor [null] is ignored; the
    prototype the object already has is accepted as it is; a prototype
    that has [l] on its own chain is a [TypeError]; any other object, and
    [null], becomes the prototype. *)
Definition set_prototype (l : loc) (x : value) : M unit :=
  fun h =>
    match x with
    | VObj l' =>
        if decide (proto_of h l = ProtoObj l') then Some (tt, h)
        else if on_chain h (chain_fuel h) l' l then None
        else Some (tt, Heap (objects h) (<[l := ProtoObj l']> (protos h)))
    | VNull => Some (tt, Heap (objects h) (<[l := NullPrototype]> (protos h)))
    | _ => Some (tt, h)
    end.

(** [v.k = x], in strict code (the file is an ES module).

    On an object: under the key [__proto__], when the accessor of
    [Object.prototype] is what the lookup finds, the setter runs and no
    property is written; under every other key, and under [__proto__]
    when the accessor is shadowed or out of reach, the own property is
    written (every property these objects hold or inherit is a writable
    data property).

    On [undefined] and [null]: a [TypeError].  On another primitive:
    under [__proto__] the setter runs and does nothing; under any other
    key no property can be created and the write is a [TypeError]. *)
Definition set (v : value) (k : string) (x : value) : M unit :=
  match v with
  | VUndefined | VNull => throw
  | VObj l =>
      fun h =>
        match h !! l with
        | Some o =>
            if String.eqb k "__proto__"
               && finds_proto_setter h (chain_fuel h) l
            then set_prototype l x h
            else Some (tt, <[l := set_prop o k x]> h)
        | None => None
        end
  | _ => if String.eqb k "__proto__" then ret tt else throw
  end.

(** The argument object [{ name, rank, description, attributes }] of
    [createTaxonFrame]; a field the caller leaves out reads as
    [VUndefined]. *)
Record options := Options {
  name : value;
  rank : value;
  description : value;
  attributes : value
}.

(** [function createTaxonFrame({ name, rank, description, attributes = {} },
    parentFrame = null)].  A default applies when the argument is
    [undefined], and only then. *)
Definition createTaxonFrame (o : options) (parentFrame : value) : M value :=
  attributes <- (match attributes o with
                 | VUndefined => l <- alloc [] ;; ret (VObj l)
                 | a => ret a
                 end) ;;
  let parentFrame := match parentFrame with
                     | VUndefined => VNull
                     | p => p
                     end in
  children <- alloc [] ;;
  frame <- alloc [("name", name o); ("rank", rank o);
                  ("description", description o);
                  ("attributes", attributes);
                  ("children", VObj children)] ;;
  (if truthy parentFrame then
     domain <- get parentFrame "domain" ;;
     if truthy domain then set (VObj frame) "inheritedDomain" domain
     else ret tt
   else ret tt) ;;;
  ret (VObj frame).

(** [parent.children[key] = child], the linking statement of the
    assembly section. *)
Definition attachChild (parent : value) (key : string) (child : value)
  : M unit :=
  children <- get parent "children" ;;
  set children key child.

(** One construction statement of the module,
    [createTaxonFrame({ name: .., rank: .., description: ..,
    attributes: { .. } }, parent)]: the [attributes] literal is an object
    of its own, allocated by the caller. *)
Definition taxon (name rank description : string) (attributes : obj)
  (parentFrame : value) : M value :=
  a <- alloc attributes ;;
  createTaxonFrame
    (Options (VStr name) (VStr rank) (VStr description) (VObj a))
    parentFrame.

(** The module body, statement by statement.  It returns the exported
    [fungiTaxonomy] (which is [kingdomFungi]) together with every frame
    the module binds to a [const], in declaration order. *)
Definition fungi_taxonomy_module : M (value * list value) :=
  kingdomFungi <- taxon "Fungi" "Kingdom"
      "Eukaryotic (with true nuclei); acellular, unicellular, or multicellular with hyphae; cell walls composed of chitin and/or polysaccharides; at least 99,000 species described." []
      VUndefined ;;
  set kingdomFungi "domain" (VStr "Eukaryota") ;;;
  phylumChytridiomycota <- taxon "Chytridiomycota" "Phylum"
      "Mainly aquatic, some are parasitic or saprotrophic; unicellular or filamentous; chitin and glucan cell wall; primarily asexual reproduction by motile spores (zoospores); contains 2 classes." []
      kingdomFungi ;;
  classChytridiomycetes <- taxon "Chytridiomycetes" "Class"
      "Aquatic parasitic (on algae, fungi, or flowering plants) or saprotrophic; unicellular or filamentous; motile cells characterized by a single posterior flagellum; monocentric thallus or polycentric rhizomycelial; contains 3 orders." []
      phylumChytridiomycota ;;
  orderChytridiales <- taxon "Chytridiales" "Order"
      "Mainly found in soil; examples of genera include Chytridium, Chytriomyces, and Nowakowskiella." []
      classChytridiomycetes ;;
  genusChytridium <- taxon "Chytridium" "Genus"
      "A genus of chytrids found in soil, characterized by its unique motile spores."
      [("habitat", VStr "Soil");
       ("reproduction", VStr "Asexual reproduction via motile zoospores");
       ("cellStructure", VStr "Unicellular or simple filamentous structures")]
      orderChytridiales ;;
  orderRhizophydiales <- taxon "Rhizophydiales" "Order"
      "Aquatic parasitic (on algae) or saprotrophic (in soil or on pollen, keratin, or chitin); sporangia spherical or angular; rhizoids branched; example genus is Rhizophydium." []
      classChytridiomycetes ;;
  orderSpizellomycetales <- taxon "Spizellomycetales" "Order"
      "Parasitic on soil organisms and plants; holocarpic or eucarpic; example genera include Spizellomyces and Powellomyces." []
      classChytridiomycetes ;;
  classMonoblepharidomycetes <- taxon "Monoblepharidomycetes" "Class"
      "Asexual reproduction by zoospores or autospores; filamentous, branched or unbranched thallus; contains 1 order." []
      phylumChytridiomycota ;;
  orderMonoblepharidales <- taxon "Monoblepharidales" "Order"
      "Sexual reproduction by motile gamete (antherozoid) fertilizing nonmotile egg, resulting in thick-walled oospore; example genus is Monoblepharis." []
      classMonoblepharidomycetes ;;
  phylumNeocallimastigomycota <- taxon "Neocallimastigomycota" "Phylum"
      "Found in digestive tracts of herbivores; anaerobic; zoospores with one or more posterior flagella; lacks mitochondria but contains hydrogenosomes (hydrogen-producing, membrane-bound organelles)." []
      kingdomFungi ;;
  classNeocallimastigomycetes <- taxon "Neocallimastigomycetes" "Class"
      "Contains 1 order." []
      phylumNeocallimastigomycota ;;
  orderNeocallimastigales <- taxon "Neocallimastigales" "Order"
      "Digest cellulose; example genus is Neocallimastix." []
      classNeocallimastigomycetes ;;
  phylumBlastocladiomycota <- taxon "Blastocladiomycota" "Phylum"
      "Parasitic on plants and animals, some are saprotrophic; aquatic and terrestrial; flagellated; alternates between haploid and diploid generations (zygotic meiosis)." []
      kingdomFungi ;;
  classBlastocladiomycetes <- taxon "Blastocladiomycetes" "Class"
      "Parasitic or saprotrophic; contains 1 order." []
      phylumBlastocladiomycota ;;
  orderBlastocladiales <- taxon "Blastocladiales" "Order"
      "Parasitic on many different substrates, including decaying fruits; example genera include Allomyces and Coelomomyces." []
      classBlastocladiomycetes ;;
  phylumMicrosporidia <- taxon "Microsporidia" "Phylum"
      "Parasitic on animals and protists; unicellular; highly reduced mitochondria; phylum not subdivided due to lack of well-defined phylogenetic relationships within the group." []
      kingdomFungi ;;
  phylumGlomeromycota <- taxon "Glomeromycota" "Phylum"
      "Forms obligate, mutualistic, symbiotic relationships in which hyphae penetrate into the cells of roots of plants and trees (arbuscular mycorrhizal associations); coenocytic hyphae; reproduces asexually; cell walls composed primarily of chitin." []
      kingdomFungi ;;
  classArchaeosporomycetes <- taxon "Archaeosporomycetes" "Class"
      "Arbuscular mycorrhizal; spores form singly or in loose clusters." []
      phylumGlomeromycota ;;
  orderArchaeosporales <- taxon "Archaeosporales" "Order"
      "Arbuscular mycorrhizal; example genera include Archaeospora and Geosiphon." []
      classArchaeosporomycetes ;;
  classGlomeromycetes <- taxon "Glomeromycetes" "Class"
      "Arbuscular mycorrhizal; single or clustered spores; contains 4 orders." []
      phylumGlomeromycota ;;
  orderDiversisporales <- taxon "Diversisporales" "Order"
      "Arbuscular mycorrhizal; forms complexes of spores; example genera include Acaulospora, Diversispora, and Pacispora." []
      classGlomeromycetes ;;
  orderGigasporales <- taxon "Gigasporales" "Order"
      "Arbuscular mycorrhizal; uses extra-radical auxiliary cells instead of vesicles in plant roots." []
      classGlomeromycetes ;;
  orderGlomerales <- taxon "Glomerales" "Order"
      "Arbuscular mycorrhizal; forms single spores, loose clusters of spores, or compact sporocarps (fruiting bodies); example genus is Glomus." []
      classGlomeromycetes ;;
  classParaglomeromycetes <- taxon "Paraglomeromycetes" "Class"
      "Arbuscular mycorrhizal; forms complexes of spores." []
      phylumGlomeromycota ;;
  orderParaglomerales <- taxon "Paraglomerales" "Order"
      "Arbuscular mycorrhizal; example genus is Paraglomus." []
      classParaglomeromycetes ;;
  subphylumMucoromycotina <- taxon "Mucoromycotina (incertae sedis)" "Subphylum"
      "Parasitic, saprotrophic, or ectomycorrhizal; asexual or sexual reproduction; branched mycelium; contains 3 orders that represent the traditional Zygomycota." []
      kingdomFungi ;;
  orderMucorales <- taxon "Mucorales" "Order"
      "Parasitic or saprotrophic; filamentous; nonmotile spores (aplanospores); coenocytic mycelium; asexual reproduction by formation of sporangiospores; example genera include Mucor, Parasitella, Phycomyces, Pilobolus, and Rhizopus." []
      subphylumMucoromycotina ;;
  orderEndogonales <- taxon "Endogonales" "Order"
      "Saprotrophic or mycorrhizal; filamentous; coenocytic mycelium; underground sporocarp; example genera include Endogone, Peridiospora, Sclerogone, and Youngiomyces." []
      subphylumMucoromycotina ;;
  orderMortierellales <- taxon "Mortierellales" "Order"
      "Parasitic or saprotrophic; fine mycelium, branched (arachnoid); sporangia with 1 or many spores; may form chlamydospores; produces garliclike odor; example genera include Mortierella, Dissophora, and Modicella." []
      subphylumMucoromycotina ;;
  subphylumEntomophthoromycotina <- taxon "Entomophthoromycotina (incertae sedis)" "Subphylum"
      "Pathogenic, saprotrophic, or parasitic; coenocytic or septate mycelium; rhizoids formed by some species; conidiophore branched or unbranched; conidia forcibly discharged; contains 1 order." []
      kingdomFungi ;;
  orderEntomophthorales <- taxon "Entomophthorales" "Order"
      "Primarily parasitic on insects, some may be saprotrophic in soil; coenocytic mycelium, may become septate; example genera include Entomophthora, Ballocephala, Conidiobolus, Entomophaga, and Neozygites." []
      subphylumEntomophthoromycotina ;;
  subphylumZoopagomycotina <- taxon "Zoopagomycotina (incertae sedis)" "Subphylum"
      "Endoparasitic (lives in the body) or ectoparasitic (lives on the body) on nematodes, protozoa, and fungi; thallus branched or unbranched; asexual and sexual reproduction; contains 1 order." []
      kingdomFungi ;;
  orderZoopagales <- taxon "Zoopagales" "Order"
      "Parasitic on amoebas, rotifers, nematodes, and other protozoa; asexual reproduction by conidia borne singly or in chains, not forcibly discharged; example genera include Cochlonema, Rhopalomyces, Piptocephalis, Sigmoideomyces, Syncephalis, and Zoopage." []
      subphylumZoopagomycotina ;;
  attachChild kingdomFungi "Chytridiomycota" phylumChytridiomycota ;;;
  attachChild kingdomFungi "Neocallimastigomycota" phylumNeocallimastigomycota ;;;
  attachChild kingdomFungi "Blastocladiomycota" phylumBlastocladiomycota ;;;
  attachChild kingdomFungi "Microsporidia" phylumMicrosporidia ;;;
  attachChild kingdomFungi "Glomeromycota" phylumGlomeromycota ;;;
  attachChild kingdomFungi "Mucoromycotina (incertae sedis)" subphylumMucoromycotina ;;;
  attachChild kingdomFungi "Entomophthoromycotina (incertae sedis)" subphylumEntomophthoromycotina ;;;
  attachChild kingdomFungi "Zoopagomycotina (incertae sedis)" subphylumZoopagomycotina ;;;
  attachChild phylumChytridiomycota "Chytridiomycetes" classChytridiomycetes ;;;
  attachChild phylumChytridiomycota "Monoblepharidomycetes" classMonoblepharidomycetes ;;;
  attachChild classChytridiomycetes "Chytridiales" orderChytridiales ;;;
  attachChild classChytridiomycetes "Rhizophydiales" orderRhizophydiales ;;;
  attachChild classChytridiomycetes "Spizellomycetales" orderSpizellomycetales ;;;
  attachChild orderChytridiales "Chytridium" genusChytridium ;;;
  attachChild classMonoblepharidomycetes "Monoblepharidales" orderMonoblepharidales ;;;
  attachChild phylumNeocallimastigomycota "Neocallimastigomycetes" classNeocallimastigomycetes ;;;
  attachChild classNeocallimastigomycetes "Neocallimastigales" orderNeocallimastigales ;;;
  attachChild phylumBlastocladiomycota "Blastocladiomycetes" classBlastocladiomycetes ;;;
  attachChild classBlastocladiomycetes "Blastocladiales" orderBlastocladiales ;;;
  attachChild phylumGlomeromycota "Archaeosporomycetes" classArchaeosporomycetes ;;;
  attachChild phylumGlomeromycota "Glomeromycetes" classGlomeromycetes ;;;
  attachChild phylumGlomeromycota "Paraglomeromycetes" classParaglomeromycetes ;;;
  attachChild classArchaeosporomycetes "Archaeosporales" orderArchaeosporales ;;;
  attachChild classGlomeromycetes "Diversisporales" orderDiversisporales ;;;
  attachChild classGlomeromycetes "Gigasporales" orderGigasporales ;;;
  attachChild classGlomeromycetes "Glomerales" orderGlomerales ;;;
  attachChild classParaglomeromycetes "Paraglomerales" orderParaglomerales ;;;
  attachChild subphylumMucoromycotina "Mucorales" orderMucorales ;;;
  attachChild subphylumMucoromycotina "Endogonales" orderEndogonales ;;;
  attachChild subphylumMucoromycotina "Mortierellales" orderMortierellales ;;;
  attachChild subphylumEntomophthoromycotina "Entomophthorales" orderEntomophthorales ;;;
  attachChild subphylumZoopagomycotina "Zoopagales" orderZoopagales ;;;
  ret (kingdomFungi,
     [kingdomFungi; phylumChytridiomycota; classChytridiomycetes;
      orderChytridiales; genusChytridium; orderRhizophydiales;
      orderSpizellomycetales; classMonoblepharidomycetes;
      orderMonoblepharidales; phylumNeocallimastigomycota;
      classNeocallimastigomycetes; orderNeocallimastigales;
      phylumBlastocladiomycota; classBlastocladiomycetes;
      orderBlastocladiales; phylumMicrosporidia; phylumGlomeromycota;
      classArchaeosporomycetes; orderArchaeosporales;
      classGlomeromycetes; orderDiversisporales; orderGigasporales;
      orderGlomerales; classParaglomeromycetes; orderParaglomerales;
      subphylumMucoromycotina; orderMucorales; orderEndogonales;
      orderMortierellales; subphylumEntomophthoromycotina;
      orderEntomophthorales; subphylumZoopagomycotina; orderZoopagales]).

(** Loading the module: the body run from the empty heap. *)
Definition loaded : option ((value * list value) * heap) :=
  fungi_taxonomy_module ∅.

Definition fungiTaxonomy : value :=
  from_option (fun r => fst (fst r)) VUndefined loaded.

Definition frames : list value :=
  from_option (fun r => snd (fst r)) [] loaded.

Definition taxonomy_heap : heap :=
  from_option snd ∅ loaded.

(** *** Reading the heap *)

(** The property [k] of the object at [l], when both exist. *)
Definition field (h : heap) (l : loc) (k : string) : option value :=
  match h !! l with
  | Some o => get_prop o k
  | None => None
  end.

(** A value that can be dereferenced in [h]: a primitive, or a location
    the heap holds. *)
Definition valid (h : heap) (v : value) : Prop :=
  match v with
  | VObj l => is_Some (h !! l)
  | _ => True
  end.

(** [c] is stored under key [k] in the [children] object of [p]. *)
Definition child_at (h : heap) (p : loc) (k : string) (c : loc) : Prop :=
  exists cs, field h p "children" = Some (VObj cs) /\
             field h cs k = Some (VObj c).

Definition child_of (h : heap) (p c : loc) : Prop :=
  exists k, child_at h p k c.

(** Following a list of keys down the [children] objects. *)
Fixpoint follow (h : heap) (l : loc) (path : list string) : option loc :=
  match path with
  | [] => Some l
  | k :: path' =>
      match field h l "children" with
      | Some (VObj cs) =>
          match field h cs k with
          | Some (VObj c) => follow h c path'
          | _ => None
          end
      | _ => None
      end
  end.

(** Reachable by zero or more [children] lookups. *)
Definition reachable (h : heap) (r l : loc) : Prop :=
  exists path, follow h r path = Some l.

(** A proper descendant: one or more [children] lookups away. *)
Inductive descendant (h : heap) : loc -> loc -> Prop :=
| desc_child p c : child_of h p c -> descendant h p c
| desc_step p c d : child_of h p c -> descendant h c d -> descendant h p d.
(** *** Where a read finds a property

    [found h k n l v]: the lookup of [k] from the object at [l] finds [v]
    as an own property of the object [n] steps up the prototype
    chain. *)
Inductive found (h : heap) (k : string) : nat -> loc -> value -> Prop :=
| found_own l o v :
    h !! l = Some o -> get_prop o k = Some v -> found h k 0 l v
| found_up n l o l' v :
    h !! l = Some o -> get_prop o k = None ->
    proto_of h l = ProtoObj l' ->
    found h k n l' v -> found h k (S n) l v.


(** *** Deciding facts about a given heap *)

(** The entries of the [children] object of [p] that hold objects. *)
Definition child_entries (h : heap) (p : loc) : list (string * loc) :=
  match field h p "children" with
  | Some (VObj cs) =>
      match h !! cs with
      | Some o =>
          omap (fun k => match get_prop o k with
                         | Some (VObj c) => Some (k, c)
                         | _ => None
                         end) (map fst o)
      | None => []
      end
  | _ => []
  end.

(** Every node within [fuel] lookups of [l], with the keys that lead to
    it. *)
Fixpoint walk (h : heap) (fuel : nat) (l : loc) : list (list string * loc) :=
  ([], l) ::
  match fuel with
  | O => []
  | S n =>
      flat_map (fun '(k, c) => map (fun '(p, x) => (k :: p, x)) (walk h n c))
        (child_entries h l)
  end.

Definition heap_forall (P : loc -> obj -> bool) (h : heap) : bool :=
  forallb (fun '(l, o) => P l o) (map_to_list (objects h)).

(** Every child sits at a later location than its parent. *)
Definition edges_ascend (h : heap) : bool :=
  heap_forall
    (fun p _ => forallb (fun '(_, c) => p <? c)%nat (child_entries h p)) h.

(** No [children] object holds [r]. *)
Definition never_a_child (h : heap) (r : loc) : bool :=
  heap_forall
    (fun p _ => forallb (fun '(_, c) => negb (c =? r)%nat)
                  (child_entries h p)) h.

(** Every entry of every [children] object is a frame whose [name] is
    the entry's key. *)
Definition keys_are_names (h : heap) : bool :=
  heap_forall
    (fun p _ =>
       match field h p "children" with
       | Some (VObj cs) =>
           match h !! cs with
           | Some o =>
               forallb (fun '(k, v) =>
                          match v with
                          | VObj c =>
                              bool_decide
                                (field h c "name" = Some (VStr k))
                          | _ => false
                          end) o
           | None => true
           end
       | _ => true
       end) h.

(** The children of [r] carry [inheritedDomain = d]; the children of
    every other object carry none. *)
Definition inherited_only_below (h : heap) (r : loc) (d : value) : bool :=
  heap_forall
    (fun p _ =>
       forallb (fun '(_, c) =>
                  bool_decide
                    (field h c "inheritedDomain" =
                     if (p =? r)%nat then Some d else None))
         (child_entries h p)) h.

Definition loc_of (v : value) : option loc :=
  match v with
  | VObj l => Some l
  | _ => None
  end.

(** *** A parent whose [domain] is the empty string

    A root frame, [root.domain = ""], and a child frame constructed with
    that root as its parent. *)
Definition empty_domain_module : M (value * value) :=
  root <- createTaxonFrame
            (Options (VStr "Fungi") (VStr "Kingdom") VUndefined VUndefined)
            VUndefined ;;
  set root "domain" (VStr "") ;;;
  child <- createTaxonFrame
             (Options (VStr "Chytridiomycota") (VStr "Phylum")
                VUndefined VUndefined)
             root ;;
  ret (root, child).

(** Every frame of [fs] is within [fuel] lookups of [r] and, unless it is
    [r] itself, is a child of a frame of [fs]. *)
Definition frames_hang_below (h : heap) (fuel : nat) (r : loc)
  (fs : list value) : bool :=
  forallb
    (fun v =>
       match v with
       | VObj l =>
           existsb (fun '(_, x) => (x =? l)%nat) (walk h fuel r)
           && ((l =? r)%nat
               || existsb
                    (fun pv =>
                       match pv with
                       | VObj p =>
                           existsb (fun '(_, c) => (c =? l)%nat)
                             (child_entries h p)
                       | _ => false
                       end) fs)
       | _ => false
       end) fs.

(** Only [r] has a [domain]. *)
Definition domain_only_at (h : heap) (r : loc) : bool :=
  heap_forall
    (fun l o => (l =? r)%nat || bool_decide (get_prop o "domain" = None)) h.

Definition lower_rank (v : value) : bool :=
  bool_decide (v = VStr "Class") || bool_decide (v = VStr "Order")
  || bool_decide (v = VStr "Genus").

(** No object ranked Class, Order or Genus has an [inheritedDomain]. *)
Definition lower_ranks_inherit_nothing (h : heap) : bool :=
  heap_forall
    (fun _ o =>
       match get_prop o "rank" with
       | Some r =>
           negb (lower_rank r)
           || bool_decide (get_prop o "inheritedDomain" = None)
       | None => true
       end) h.

(** *** Two children attached under [__proto__]

    A root frame and two frames constructed with it as their parent,
    both linked into the root under the key [__proto__]. *)
Definition proto_key_module : M (value * value * value) :=
  root <- createTaxonFrame
            (Options (VStr "Fungi") (VStr "Kingdom") VUndefined VUndefined)
            VUndefined ;;
  a <- createTaxonFrame
         (Options (VStr "Chytridiomycota") (VStr "Phylum")
            VUndefined VUndefined)
         root ;;
  b <- createTaxonFrame
         (Options (VStr "Glomeromycota") (VStr "Phylum")
            VUndefined VUndefined)
         root ;;
  attachChild root "__proto__" a ;;;
  attachChild root "__proto__" b ;;;
  ret (root, a, b).

(** *** All the links of a heap *)

(** Every (parent, key, child) of the heap. *)
Definition edges (h : heap) : list (loc * string * loc) :=
  flat_map (fun '(p, _) => map (fun '(k, c) => (p, k, c)) (child_entries h p))
    (map_to_list (objects h)).

(** No object is the child of two links. *)
Definition single_parent (h : heap) : bool :=
  bool_decide (NoDup (map snd (edges h))).
End Store.

(** ** The tree view *)

Module View.

(** [interface Taxon].  An optional field is [None] when it is missing;
    [children] is kept in creation order, as an object keeps it. *)
Inductive Taxon := mkTaxon {
  name : string;
  rank : string;
  description : option string;
  attributes : option obj;
  children : option (list (string * Taxon))
}.

(** The two [useState] cells of one component instance. *)
Record state := State {
  expanded : bool;
  showDescription : bool
}.

(** [useState(false)], twice. *)
Definition initial : state := State false false.

(** What a click handler does when it runs.  A handler closes over the
    values of the render that created it, so [() => setExpanded(!expanded)]
    is [SetExpanded b] with [b] the negation of the value rendered. *)
Inductive handler :=
| SetExpanded (b : bool)
| SetShowDescription (b : bool).

Definition run_handler (f : handler) (s : state) : state :=
  match f with
  | SetExpanded b => State b (showDescription s)
  | SetShowDescription b => State (expanded s) b
  end.

Inductive icon := ChevronRight | ChevronDown.

(** React elements, as far as the component builds them.  A JSX child
    that evaluates to [false], [undefined] or the empty string renders
    nothing and is left out of [kids]. *)
Inductive elem :=
| Text (s : string)
| Icon (i : icon) (size : Z)
| Div (className : string) (style : list (string * string))
    (kids : list elem)
| Span (className : string) (kids : list elem)
| Button (variant size className : string) (onClick : handler)
    (kids : list elem)
| TaxonomyLevelElem (key : string) (data : Taxon) (level : float).

(** [s.replace(/_/g, " ")] *)
Fixpoint replace_underscores (s : string) : string :=
  match s with
  | EmptyString => EmptyString
  | String a s' =>
      String (if Ascii.eqb a "_" then " "%char else a)
        (replace_underscores s')
  end.

(** [getRandomColor], with the value of
    [Math.floor(Math.random() * 360)] as an argument. *)
Definition getRandomColor (hue : Z) : string :=
  "hsl(" +:+ pretty hue +:+ ", 70%, 80%)".

(** [data.children && Object.keys(data.children).length > 0] *)
Definition has_children (data : Taxon) : bool :=
  match children data with
  | Some cs => (0 <? length (Object_keys cs))%nat
  | None => false
  end.

(** [data.description] as a condition: present and not empty. *)
Definition has_description (data : Taxon) : bool :=
  match description data with
  | Some d => negb (String.eqb d "")
  | None => false
  end.

(** JSX [{cond && x}]. *)
Definition when {A} (cond : bool) (x : A) : list A :=
  if cond then [x] else [].

(** The function component: one render of one instance, from its props,
    the current values of its two state cells and the hue drawn for this
    render.  The prop [level] is a [number] of the source, a double, and
    [level + 1] below is the sum of doubles. *)
Definition TaxonomyLevel (data : Taxon) (level : float) (st : state) (hue : Z)
  : elem :=
  let expanded := expanded st in
  let showDescription := showDescription st in
  let bgColor := getRandomColor hue in
  Div "ml-4" []
    [Div "mb-4 rounded-lg overflow-hidden shadow-lg"
       [("background",
         "linear-gradient(135deg, " +:+ bgColor +:+ "55, " +:+ bgColor
         +:+ "22)");
        ("backdropFilter", "blur(10px)");
        ("border", "1px solid rgba(255, 255, 255, 0.18)")]
       [Div "p-4" []
          ([Div "flex items-center justify-between" []
              ([Div "flex items-center" []
                  (when (has_children data)
                     (Button "ghost" "sm"
                        "mr-2 text-white hover:text-gray-200"
                        (SetExpanded (negb expanded))
                        [Icon (if expanded then ChevronDown
                               else ChevronRight) 20])
                   ++ [Span "font-semibold text-white text-lg"
                         [Text (replace_underscores (name data));
                          Text " ";
                          Span "text-sm"
                            [Text "("; Text (rank data); Text ")"]]])]
               ++ when (has_description data)
                    (Button "outline" "sm"
                       "bg-white bg-opacity-20 text-white border-white border-opacity-40 hover:bg-opacity-30"
                       (SetShowDescription (negb showDescription))
                       [Text (if showDescription then "Hide" else "Show");
                        Text " Description"]))]
           ++ match description data with
              | Some d =>
                  when (showDescription && negb (String.eqb d ""))
                    (Div "mt-2 text-sm text-white bg-black bg-opacity-10 p-3 rounded-md"
                       [] [Text d])
              | None => []
              end
           ++ match children data with
              | Some cs =>
                  when expanded
                    (Div "mt-2" []
                       (map (fun '(childKey, childTaxon) =>
                               TaxonomyLevelElem childKey childTaxon
                                 (level + 1))
                          (Object_entries cs)))
              | None => []
              end)]].

(** *** Reading a rendered element *)

(** The click handlers, in document order. *)
Fixpoint handlers (e : elem) : list handler :=
  match e with
  | Text _ | Icon _ _ | TaxonomyLevelElem _ _ _ => []
  | Div _ _ kids | Span _ kids => flat_map handlers kids
  | Button _ _ _ f kids => f :: flat_map handlers kids
  end.

(** The buttons, in document order. *)
Fixpoint buttons (e : elem) : list elem :=
  match e with
  | Text _ | Icon _ _ | TaxonomyLevelElem _ _ _ => []
  | Div _ _ kids | Span _ kids => flat_map buttons kids
  | Button _ _ _ _ kids => e :: flat_map buttons kids
  end.

(** The text nodes, in document order. *)
Fixpoint texts (e : elem) : list string :=
  match e with
  | Text s => [s]
  | Icon _ _ | TaxonomyLevelElem _ _ _ => []
  | Div _ _ kids | Span _ kids | Button _ _ _ _ kids => flat_map texts kids
  end.

(** [textContent]. *)
Definition text_content (e : elem) : string :=
  fold_right String.append "" (texts e).

(** The child component elements still to be rendered, in document
    order. *)
Fixpoint components (e : elem) : list (string * Taxon * float) :=
  match e with
  | Text _ | Icon _ _ => []
  | TaxonomyLevelElem k d l => [(k, d, l)]
  | Div _ _ kids | Span _ kids | Button _ _ _ _ kids =>
      flat_map components kids
  end.

(** The row headers: the text of every name span, in document order. *)
Fixpoint row_labels (e : elem) : list string :=
  match e with
  | Text _ | Icon _ _ | TaxonomyLevelElem _ _ _ => []
  | Span c kids =>
      if String.eqb c "font-semibold text-white text-lg"
      then [text_content e]
      else flat_map row_labels kids
  | Div _ _ kids | Button _ _ _ _ kids => flat_map row_labels kids
  end.


(** *** Clicking *)

Inductive control := ExpandControl | DescriptionControl.

Definition handles (c : control) (f : handler) : bool :=
  match c, f with
  | ExpandControl, SetExpanded _ => true
  | DescriptionControl, SetShowDescription _ => true
  | _, _ => false
  end.

(** The button of a control in a rendered element, if it is there. *)
Definition control_button (c : control) (e : elem) : option elem :=
  List.find (fun b => match b with
                      | Button _ _ _ f _ => handles c f
                      | _ => false
                      end) (buttons e).

(** A click on a control of the instance rendered from [st]: the state
    after the control's handler has run, or [None] when the render shows
    no such control. *)
Definition click (c : control) (data : Taxon) (level : float) (hue : Z)
  (st : state) : option state :=
  match List.find (handles c) (handlers (TaxonomyLevel data level st hue)) with
  | Some f => Some (run_handler f st)
  | None => None
  end.

(** *** Rendering the whole tree

    React renders a component element by calling the component and
    rendering what it returns in the element's place.  An instance is
    identified by the keys on the way to it; [ui] gives the state cells
    of every instance and [hue] the hue drawn for it. *)

Fixpoint height (t : Taxon) : nat :=
  match children t with
  | Some cs => S (list_max (map (fun kc => height (snd kc)) cs))
  | None => O
  end.

Fixpoint mount (fuel : nat) (ui : list string -> state)
  (hue : list string -> Z) : list string -> elem -> elem :=
  fix go (path : list string) (e : elem) {struct e} : elem :=
    match e with
    | Text _ | Icon _ _ => e
    | Div c s kids => Div c s (map (go path) kids)
    | Span c kids => Span c (map (go path) kids)
    | Button v s c f kids => Button v s c f (map (go path) kids)
    | TaxonomyLevelElem k d l =>
        match fuel with
        | O => e
        | S n =>
            let here := path ++ [k] in
            mount n ui hue here (TaxonomyLevel d l (ui here) (hue here))
        end
    end.

(** The page: [<TaxonomyLevel data={fungiTaxonomy} level={0} />]. *)
Definition render_tree (fuel : nat) (ui : list string -> state)
  (hue : list string -> Z) (path : list string) (data : Taxon) (level : float)
  : elem :=
  mount fuel ui hue path (TaxonomyLevel data level (ui path) (hue path)).

(** The header text of a node's row. *)
Definition label (data : Taxon) : string :=
  replace_underscores (name data) +:+ " (" +:+ rank data +:+ ")".

(** *** Sample nodes

    A genus with attributes and no children, and the chain
    root, phylum, class. *)
Definition genusChytridium : Taxon :=
  mkTaxon "Chytridium" "Genus" None
    (Some [("habitat", VStr "Soil")]) (Some []).

Definition classChytridiomycetes : Taxon :=
  mkTaxon "Chytridiomycetes" "Class" (Some "X") (Some []) (Some []).

Definition phylumChytridiomycota : Taxon :=
  mkTaxon "Chytridiomycota" "Phylum" None (Some [])
    (Some [("Chytridiomycetes", classChytridiomycetes)]).

Definition kingdomFungi : Taxon :=
  mkTaxon "Fungi" "Kingdom" (Some "X") (Some [])
    (Some [("Chytridiomycota", phylumChytridiomycota)]).

(** *** From the store to the view

    The page passes [fungiTaxonomy] to the component as a [Taxon].  This
    reads the frame at [l] the way the interface types it; [None] when
    the frame does not fit the interface or [fuel] runs out.  It reads
    own properties, so it takes only frames and [children] objects that
    kept the prototype they were made with, which have no others under
    these keys. *)
Definition plain_object (h : Store.heap) (l : loc) : option obj :=
  match Store.proto_of h l with
  | Store.ObjectPrototype => h !! l
  | _ => None
  end.

Definition as_string (v : option value) : option string :=
  match v with
  | Some (VStr s) => Some s
  | _ => None
  end.

Definition as_optional_string (v : option value) : option (option string) :=
  match v with
  | Some (VStr s) => Some (Some s)
  | Some VUndefined | None => Some None
  | _ => None
  end.

Fixpoint as_Taxon (h : Store.heap) (fuel : nat) (l : loc) : option Taxon :=
  match fuel with
  | O => None
  | S n =>
      o ← plain_object h l;
      name ← as_string (get_prop o "name");
      rank ← as_string (get_prop o "rank");
      description ← as_optional_string (get_prop o "description");
      attributes ←
        match get_prop o "attributes" with
        | Some (VObj a) => Some <$> h !! a
        | Some VUndefined | None => Some None
        | _ => None
        end;
      children ←
        match get_prop o "children" with
        | Some (VObj cs) =>
            entries ← plain_object h cs;
            Some <$>
              mapM (fun '(k, v) =>
                      match v with
                      | VObj c => pair k <$> as_Taxon h n c
                      | _ => None
                      end) entries
        | Some VUndefined | None => Some None
        | _ => None
        end;
      Some (mkTaxon name rank description attributes children)
  end.

(** Every instance expanded, descriptions hidden. *)
Definition all_expanded : list string -> state := fun _ => State true false.

(** *** Sequences of clicks *)

(** One click event: the control clicked and the hue of the render that
    showed it.  A click on a control the render does not show changes
    nothing. *)
Definition press (data : Taxon) (level : float) (st : state) (ev : control * Z)
  : state :=
  default st (click (fst ev) data level (snd ev) st).

Definition presses (data : Taxon) (level : float) (evs : list (control * Z))
  (st : state) : state :=
  fold_left (press data level) evs st.

Definition same_control (c d : control) : bool :=
  match c, d with
  | ExpandControl, ExpandControl
  | DescriptionControl, DescriptionControl => true
  | _, _ => false
  end.

(** How often a control is clicked in a sequence. *)
Definition clicks_on (c : control) (evs : list (control * Z)) : nat :=
  length (List.filter (fun ev => same_control c (fst ev)) evs).

(** *** Measures and erasures *)

(** The number of nodes of a tree. *)
Fixpoint size (t : Taxon) : nat :=
  S match children t with
    | Some cs => list_sum (map (fun kc => size (snd kc)) cs)
    | None => O
    end.

(** The same tree without any [attributes]. *)
Fixpoint forget_attributes (t : Taxon) : Taxon :=
  mkTaxon (name t) (rank t) (description t) None
    match children t with
    | Some cs =>
        Some (map (fun kc => (fst kc, forget_attributes (snd kc))) cs)
    | None => None
    end.

(** The same element without any [style]. *)
Fixpoint unstyle (e : elem) : elem :=
  match e with
  | Text _ | Icon _ _ | TaxonomyLevelElem _ _ _ => e
  | Div c _ kids => Div c [] (map unstyle kids)
  | Span c kids => Span c (map unstyle kids)
  | Button v s c f kids => Button v s c f (map unstyle kids)
  end.

(** *** The rows of a tree

    The row headers of every node, parent before child, the children in
    creation order. *)
Fixpoint labels (t : Taxon) : list string :=
  label t ::
  match children t with
  | Some cs => flat_map (fun kc => labels (snd kc)) cs
  | None => []
  end.

(** No key anywhere in the tree is an array index. *)
Fixpoint plain_keys (t : Taxon) : bool :=
  match children t with
  | Some cs =>
      forallb (fun kc => negb (is_index_key (fst kc)) && plain_keys (snd kc))
        cs
  | None => true
  end.
End View.

(** * Properties *)

(** ** Objects *)

Section Properties.
Context {A : Type}.
Implicit Types (o : list (string * A)) (k : string) (v : A).

Lemma get_set_prop_eq o k v : get_prop (set_prop o k v) k = Some v.
Proof.
  induction o as [|[k' v'] o IH]; simpl.
  - by rewrite String.eqb_refl.
  - destruct (String.eqb k' k) eqn:E; simpl.
    + by rewrite String.eqb_refl.
    + by rewrite E.
Qed.

Lemma get_set_prop_ne o k k' v :
  k <> k' -> get_prop (set_prop o k v) k' = get_prop o k'.
Proof.
  intros Hne. induction o as [|[k0 v0] o IH]; simpl.
  - by apply String.eqb_neq in Hne as ->.
  - destruct (String.eqb k0 k) eqn:E; simpl.
    + apply String.eqb_eq in E as ->.
      by apply String.eqb_neq in Hne as ->.
    + by rewrite IH.
Qed.

Lemma set_prop_twice o k v w :
  set_prop (set_prop o k v) k w = set_prop o k w.
Proof.
  induction o as [|[k' v'] o IH]; simpl.
  - by rewrite String.eqb_refl.
  - destruct (String.eqb k' k) eqn:E; simpl.
    + by rewrite String.eqb_refl.
    + by rewrite E, IH.
Qed.

Lemma get_prop_In o k v : get_prop o k = Some v -> In (k, v) o.
Proof.
  induction o as [|[k' v'] o IH]; simpl; [done|].
  destruct (String.eqb k' k) eqn:E.
  - apply String.eqb_eq in E as ->. intros [= ->]. by left.
  - intros H. right. by apply IH.
Qed.

Lemma get_prop_key o k v : get_prop o k = Some v -> In k (map fst o).
Proof. intros H%get_prop_In. by apply (in_map fst) in H. Qed.

(** Enumeration reorders the entries and neither drops nor adds one. *)
Lemma insert_index_perm n (e : string * A) l :
  Permutation (insert_index n e l) ((n, e) :: l).
Proof.
  induction l as [|[m e'] l IH]; simpl; [done|].
  destruct (n <? m)%N; [done|].
  rewrite IH. apply perm_swap.
Qed.

Lemma Object_entries_perm o : Permutation (Object_entries o) o.
Proof.
  unfold Object_entries. induction o as [|[k v] o IH]; simpl; [done|].
  destruct (array_index k) as [n|].
  - rewrite insert_index_perm. simpl. by constructor.
  - rewrite <- Permutation_middle. by constructor.
Qed.

Lemma Object_entries_In o e : In e (Object_entries o) <-> In e o.
Proof.
  split; apply Permutation_in;
    [apply Object_entries_perm | symmetry; apply Object_entries_perm].
Qed.

Lemma Object_keys_length o : length (Object_keys o) = length o.
Proof.
  unfold Object_keys. rewrite length_map.
  apply Permutation_length, Object_entries_perm.
Qed.

(** Without array-index keys the enumeration is the creation order. *)
Lemma Object_entries_creation_order o :
  Forall (fun e => array_index (fst e) = None) o -> Object_entries o = o.
Proof.
  intros H. unfold Object_entries.
  assert (index_entries o = [] /\ string_entries o = o) as [-> ->]; [|done].
  induction H as [|[k v] o Hk _ [IH1 IH2]]; simpl in *; [done|].
  by rewrite Hk, IH1, IH2.
Qed.

(** The enumeration lists the array-index keys first, by ascending
    number, and then the other keys as they were created. *)
Lemma string_entries_filter o :
  string_entries o = List.filter (fun e => negb (is_index_key (fst e))) o.
Proof.
  unfold is_index_key. induction o as [|[k v] o IH]; simpl; [done|].
  destruct (array_index k); simpl; by rewrite IH.
Qed.

Lemma insert_index_sorted n (e : string * A) l :
  Sorted (fun x y : N * (string * A) => (fst x <= fst y)%N) l ->
  Sorted (fun x y : N * (string * A) => (fst x <= fst y)%N)
    (insert_index n e l).
Proof.
  induction 1 as [|[m e'] l Hl IH Hhd]; simpl.
  - by repeat constructor.
  - destruct (n <? m)%N eqn:E.
    + apply N.ltb_lt in E. repeat constructor; try done. simpl. lia.
    + apply N.ltb_ge in E. constructor; [done|].
      destruct l as [|[m' e''] l]; simpl in *.
      * by constructor.
      * apply HdRel_inv in Hhd. simpl in Hhd.
        by destruct (n <? m')%N; constructor.
Qed.

Lemma index_entries_sorted o :
  Sorted (fun x y : N * (string * A) => (fst x <= fst y)%N)
    (index_entries o).
Proof.
  induction o as [|[k v] o IH]; simpl; [constructor|].
  destruct (array_index k); [by apply insert_index_sorted|done].
Qed.

Lemma index_entries_tagged o :
  Forall (fun x : N * (string * A) => array_index (fst (snd x)) = Some (fst x))
    (index_entries o).
Proof.
  induction o as [|[k v] o IH]; simpl; [constructor|].
  destruct (array_index k) as [n|] eqn:E; [|done].
  clear -IH E. induction IH as [|[m e] l Hm Hl IHl]; simpl.
  - by repeat constructor.
  - destruct (n <? m)%N; repeat (constructor; try done).
Qed.

Lemma Object_entries_order o :
  exists idx,
    Object_entries o
    = idx ++ List.filter (fun e => negb (is_index_key (fst e))) o /\
    Forall (fun e => is_index_key (fst e) = true) idx /\
    Sorted index_le idx.
Proof.
  exists (map snd (index_entries o)). unfold Object_entries.
  rewrite string_entries_filter. split; [done|].
  pose proof (index_entries_sorted o) as Hs.
  pose proof (index_entries_tagged o) as Ht.
  induction Hs as [|[n e] l Hl IH Hhd]; simpl.
  - split; constructor.
  - apply Forall_cons in Ht as [Hn Ht]. simpl in Hn.
    destruct (IH Ht) as [IH1 IH2]. split.
    + constructor; [|done]. unfold is_index_key. by rewrite Hn.
    + constructor; [done|].
      destruct Hhd as [|[m e'] l' Hle]; simpl; constructor.
      apply Forall_cons in Ht as [Hm _]. simpl in *.
      unfold index_le. by rewrite Hn, Hm.
Qed.

End Properties.

(** ** The frame store *)

Module StoreFacts.
Import Store.
Local Open Scope js_scope.

(** *** The heap *)

Lemma hlookup_insert_eq (h : heap) l o : <[l := o]> h !! l = Some o.
Proof. apply (lookup_insert_eq (objects h)). Qed.

Lemma hlookup_insert_ne (h : heap) l l' o :
  l <> l' -> <[l := o]> h !! l' = h !! l'.
Proof. apply (lookup_insert_ne (objects h)). Qed.

Lemma hinsert_insert_eq (h : heap) l o o' :
  <[l := o]> (<[l := o']> h) = <[l := o]> h.
Proof.
  unfold insert, heap_insert. simpl. f_equal.
  apply (insert_insert_eq (objects h)).
Qed.

Lemma proto_of_insert (h : heap) l o l' :
  proto_of (<[l := o]> h) l' = proto_of h l'.
Proof. reflexivity. Qed.

Lemma alloc_fresh o h :
  exists l, alloc o h = Some (l, <[l := o]> h) /\
            h !! l = None /\ protos h !! l = None.
Proof.
  exists (fresh (dom (objects h) ∪ dom (protos h))). split; [done|].
  pose proof (is_fresh (dom (objects h) ∪ dom (protos h))) as H.
  apply not_elem_of_union in H as [H1 H2].
  split; by apply not_elem_of_dom.
Qed.

(** *** Reading along the prototype chain *)

Lemma lookup_chain_own (h : heap) fuel l k v :
  field h l k = Some v -> lookup_chain h fuel l k = Some v.
Proof.
  unfold field. destruct fuel; simpl; destruct (h !! l); try done.
  all: by intros ->.
Qed.

Lemma read_own (h : heap) l k v : field h l k = Some v -> read h l k = v.
Proof. intros H. unfold read. by rewrite (lookup_chain_own _ _ _ _ _ H). Qed.

(** An object that kept the prototype it was made with inherits nothing
    under the keys of this program. *)
Lemma read_plain (h : heap) l k :
  (forall q, proto_of h l <> ProtoObj q) ->
  read h l k = default VUndefined (field h l k).
Proof.
  intros Hp. unfold read, field.
  destruct (chain_fuel h); simpl; destruct (h !! l) as [o|]; try done.
  all: destruct (get_prop o k); [done|].
  all: destruct (proto_of h l) as [| |q] eqn:E; try done.
  by destruct (Hp q).
Qed.

(** Reading [k] gives the same in two heaps with the same prototypes,
    the same objects, and the same properties under [k]. *)
Lemma lookup_chain_agree (h h' : heap) k fuel l :
  protos h = protos h' ->
  (forall l, (fun o => get_prop o k) <$> h !! l
             = (fun o => get_prop o k) <$> h' !! l) ->
  lookup_chain h fuel l k = lookup_chain h' fuel l k.
Proof.
  intros Hp Ho. revert l. induction fuel as [|n IH]; intros l; simpl.
  all: specialize (Ho l) as Hl; unfold proto_of; rewrite <- Hp.
  all: destruct (h !! l) as [o|], (h' !! l) as [o'|]; simpl in Hl;
    try done.
  all: injection Hl as <-; destruct (get_prop o k); [done|].
  all: by destruct (default ObjectPrototype (protos h !! l)).
Qed.

(** The lookup with fuel and the derivation of what it finds. *)
Lemma lookup_chain_found (h : heap) k fuel l v :
  lookup_chain h fuel l k = Some v -> exists n, n <= fuel /\ found h k n l v.
Proof.
  revert l. induction fuel as [|fuel IH]; intros l; simpl.
  - destruct (h !! l) as [o|] eqn:E; [|done].
    destruct (get_prop o k) as [w|] eqn:Ek.
    + intros [= ->]. exists 0. split; [lia|]. by econstructor.
    + by destruct (proto_of h l).
  - destruct (h !! l) as [o|] eqn:E; [|done].
    destruct (get_prop o k) as [w|] eqn:Ek.
    + intros [= ->]. exists 0. split; [lia|]. by econstructor.
    + destruct (proto_of h l) as [| |l'] eqn:Ep; try done.
      intros (n & Hn & Hf)%IH. exists (S n). split; [lia|].
      by econstructor.
Qed.

Lemma found_lookup_chain (h : heap) k n l v fuel :
  found h k n l v -> n <= fuel -> lookup_chain h fuel l k = Some v.
Proof.
  intros Hf. revert fuel.
  induction Hf as [l o v Hl Hk|n l o l' v Hl Hk Hp _ IH]; intros fuel Hn.
  - destruct fuel; simpl; by rewrite Hl, Hk.
  - destruct fuel as [|fuel]; [lia|]. simpl. rewrite Hl, Hk, Hp.
    apply IH. lia.
Qed.

Lemma found_det (h : heap) k n n' l v v' :
  found h k n l v -> found h k n' l v' -> n = n' /\ v = v'.
Proof.
  intros Hf. revert n' v'.
  induction Hf as [l o v Hl Hk|n l o l' v Hl Hk Hp _ IH];
    intros n' v' Hf'.
  - inversion Hf' as [? o' ? Hl' Hk'|? ? o' ? ? Hl' Hk' Hp' Hf'']; subst.
    + split; [done|]. congruence.
    + congruence.
  - inversion Hf' as [? o' ? Hl' Hk'|m ? o' l'' ? Hl' Hk' Hp' Hf'']; subst.
    + congruence.
    + assert (l'' = l') as -> by congruence.
      destruct (IH _ _ Hf'') as [-> ->]. done.
Qed.

(** A derivation that does not pass the object at [l] stands without
    it. *)
Lemma found_delete (h : heap) k n x v l :
  found h k n x v ->
  (forall m w, found h k m l w -> n < m) ->
  found (Heap (delete l (objects h)) (protos h)) k n x v.
Proof.
  intros Hf. induction Hf as [x o v Hx Hk|n x o x' v Hx Hk Hp Hf IH];
    intros Hl.
  - assert (l <> x) as Hne.
    { intros ->. assert (0 < 0); [|lia]. apply (Hl 0 v). by econstructor. }
    econstructor; [|done].
    unfold lookup, heap_lookup. simpl. by rewrite lookup_delete_ne.
  - assert (l <> x) as Hne.
    { intros ->. assert (S n < S n); [|lia]. apply (Hl (S n) v).
      by econstructor. }
    econstructor; [|done|exact Hp|].
    + unfold lookup, heap_lookup. simpl. by rewrite lookup_delete_ne.
    + apply IH. intros m w Hm. specialize (Hl m w Hm). lia.
Qed.

(** A prototype chain that finds a property does so before it has
    visited as many objects as the heap holds: the fuel of [read] is
    enough. *)
Lemma found_bound (h : heap) k n l v :
  found h k n l v -> n < size (objects h).
Proof.
  revert h l. induction n as [|n IH]; intros h l Hf.
  - inversion Hf; subst.
    assert (size (objects h) <> 0); [|lia].
    apply (map_size_ne_0_lookup_2 _ l). eauto.
  - inversion Hf as [|? ? o l' ? Hl Hk Hp Hf']; subst.
    assert (found (Heap (delete l (objects h)) (protos h)) k n l' v) as Hd.
    { apply found_delete; [done|]. intros m w Hm.
      destruct (found_det _ _ _ _ _ _ _ Hf Hm) as [<- _]. lia. }
    apply IH in Hd. simpl in Hd.
    rewrite map_size_delete_Some in Hd by eauto.
    lia.
Qed.

Lemma lookup_chain_enough (h : heap) k fuel l :
  chain_fuel h <= fuel ->
  lookup_chain h fuel l k = lookup_chain h (chain_fuel h) l k.
Proof.
  intros Hfuel. apply option_eq. intros v. split.
  - intros (n & _ & Hf)%lookup_chain_found.
    apply (found_lookup_chain _ _ _ _ _ _ Hf).
    pose proof (found_bound _ _ _ _ _ Hf). unfold chain_fuel. lia.
  - intros (n & Hn & Hf)%lookup_chain_found.
    apply (found_lookup_chain _ _ _ _ _ _ Hf). lia.
Qed.

Lemma read_found (h : heap) k l v :
  lookup_chain h (chain_fuel h) l k = Some v <-> exists n, found h k n l v.
Proof.
  split.
  - intros (n & _ & Hf)%lookup_chain_found. eauto.
  - intros [n Hf]. apply (found_lookup_chain _ _ _ _ _ _ Hf).
    pose proof (found_bound _ _ _ _ _ Hf). unfold chain_fuel. lia.
Qed.

(** A new object that has no property under [k] changes no read of
    [k]. *)
Lemma found_insert_fresh (h : heap) k l0 o0 n l v :
  h !! l0 = None -> protos h !! l0 = None -> get_prop o0 k = None ->
  found (<[l0 := o0]> h) k n l v <-> found h k n l v.
Proof.
  intros Hl0 Hp0 Hk0. split.
  - induction 1 as [l o v Hl Hk|n l o l' v Hl Hk Hp _ IH].
    + destruct (decide (l0 = l)) as [->|Hne].
      * rewrite hlookup_insert_eq in Hl. congruence.
      * rewrite hlookup_insert_ne in Hl by done. by econstructor.
    + destruct (decide (l0 = l)) as [->|Hne].
      * rewrite proto_of_insert in Hp. unfold proto_of in Hp.
        by rewrite Hp0 in Hp.
      * rewrite hlookup_insert_ne in Hl by done. by econstructor.
  - induction 1 as [l o v Hl Hk|n l o l' v Hl Hk Hp _ IH].
    + econstructor; [|done]. rewrite hlookup_insert_ne; [done|congruence].
    + econstructor; [|done|by rewrite proto_of_insert|done].
      rewrite hlookup_insert_ne; [done|congruence].
Qed.

Lemma read_insert_fresh (h : heap) k l0 o0 l :
  h !! l0 = None -> protos h !! l0 = None -> get_prop o0 k = None ->
  read (<[l0 := o0]> h) l k = read h l k.
Proof.
  intros Hl0 Hp0 Hk0. unfold read. f_equal. apply option_eq. intros v.
  rewrite !read_found.
  split; intros [n Hf]; exists n; by apply (found_insert_fresh h k l0 o0).
Qed.

(** A write under a key other than [__proto__] is a write of the own
    property. *)
Lemma set_own (h : heap) l k x :
  k <> "__proto__" ->
  set (VObj l) k x h =
    match h !! l with
    | Some o => Some (tt, <[l := set_prop o k x]> h)
    | None => None
    end.
Proof.
  intros Hk%String.eqb_neq. unfold set. by rewrite Hk.
Qed.

(** What the frame literal of [createTaxonFrame] holds. *)
Lemma createTaxonFrame_run h o parent :
  valid h parent ->
  exists (a : value) (c f : loc) (h1 : heap),
    ((attributes o = VUndefined /\
      exists al, a = VObj al /\ h !! al = None /\ h1 = <[al := []]> h) \/
     (attributes o <> VUndefined /\ a = attributes o /\ h1 = h)) /\
    h1 !! c = None /\ h1 !! f = None /\ c <> f /\
    protos h1 = protos h /\ protos h !! c = None /\ protos h !! f = None /\
    createTaxonFrame o parent h =
      Some (VObj f,
            <[f := [("name", name o); ("rank", rank o);
                    ("description", description o);
                    ("attributes", a); ("children", VObj c)]
                   ++ match parent with
                      | VObj p =>
                          if truthy (read h p "domain")
                          then [("inheritedDomain", read h p "domain")]
                          else []
                      | _ => []
                      end]>
              (<[c := []]> h1)).
Proof.
  intros Hv.
  (* the [attributes] default *)
  assert (exists a h1,
    match attributes o with
    | VUndefined => l <- alloc [] ;; ret (VObj l)
    | x => ret x
    end h = Some (a, h1) /\
    ((attributes o = VUndefined /\
      exists al, a = VObj al /\ h !! al = None /\ h1 = <[al := []]> h) \/
     (attributes o <> VUndefined /\ a = attributes o /\ h1 = h)) /\
    protos h1 = protos h /\
    (forall l, is_Some (h !! l) -> h1 !! l = h !! l) /\
    (forall p k, read h1 p k = read h p k))
    as (a & h1 & Hattr & Hcase & Hprotos & Hkeep & Hread1).
  { destruct (attributes o) eqn:Ha;
      try (eexists _, h; split; [reflexivity|]; split; [right|]; done).
    destruct (alloc_fresh [] h) as (al & Hal & Hnew & Hnewp).
    exists (VObj al), (<[al := []]> h). unfold bind. rewrite Hal.
    split; [done|]. split; [left; eauto|]. split; [done|]. split.
    - intros l [x Hx]. rewrite hlookup_insert_ne; [done|congruence].
    - intros p k. by apply read_insert_fresh. }
  destruct (alloc_fresh [] h1) as (c & Hc & Hcnew & Hcp).
  destruct (alloc_fresh [("name", name o); ("rank", rank o);
                          ("description", description o);
                          ("attributes", a); ("children", VObj c)]
              (<[c := []]> h1)) as (f & Hf & Hfnew & Hfp).
  assert (forall p,
            read (<[f := [("name", name o); ("rank", rank o);
                          ("description", description o);
                          ("attributes", a); ("children", VObj c)]]>
                    (<[c := []]> h1)) p "domain"
            = read h p "domain") as Hread.
  { intros p. rewrite read_insert_fresh by done.
    rewrite read_insert_fresh by done. apply Hread1. }
  assert (c <> f) as Hcf.
  { intros ->. by rewrite hlookup_insert_eq in Hfnew. }
  rewrite hlookup_insert_ne in Hfnew by done.
  change (protos (<[c := []]> h1)) with (protos h1) in Hfp.
  rewrite Hprotos in Hcp, Hfp.
  exists a, c, f, h1. do 7 (split; [done|]).
  unfold createTaxonFrame.
  unfold bind at 1. rewrite Hattr. cbv beta iota.
  unfold bind at 1. rewrite Hc. cbv beta iota.
  unfold bind at 1. rewrite Hf. cbv beta iota.
  destruct parent as [| |b|z| |s|p]; simpl; unfold bind, ret; simpl;
    try done.
  - by destruct b.
  - by destruct (z =? 0)%Z.
  - by destruct (String.eqb s "").
  - destruct Hv as [po Hpo].
    assert (h1 !! p = Some po) as Hp1 by (rewrite Hkeep; eauto).
    assert (p <> c) by congruence. assert (p <> f) by congruence.
    rewrite !hlookup_insert_ne, Hp1 by done.
    rewrite Hread.
    destruct (truthy _); simpl; [|done].
    by rewrite hlookup_insert_eq, hinsert_insert_eq.
Qed.

Lemma field_insert_eq (h : heap) l o k :
  field (<[l := o]> h) l k = get_prop o k.
Proof. unfold field. by rewrite hlookup_insert_eq. Qed.

Lemma field_insert_ne (h : heap) l l' o k :
  l <> l' -> field (<[l := o]> h) l' k = field h l' k.
Proof. intros. unfold field. by rewrite hlookup_insert_ne. Qed.

(** C5: [createTaxonFrame] returns a frame at a location the heap did not
    hold, whose [name], [rank], [description] and [attributes] are the
    given ones and whose [children] is a new empty object; when the call
    leaves [attributes] out, the field is a new empty object; and every
    object the heap held before the call, the parent and its [children]
    among them, is the same after it. *)
Theorem createTaxonFrame_new_frame (h : heap) o parent :
  valid h parent ->
  exists f c h',
    createTaxonFrame o parent h = Some (VObj f, h') /\
    h !! f = None /\ h !! c = None /\
    field h' f "name" = Some (name o) /\
    field h' f "rank" = Some (rank o) /\
    field h' f "description" = Some (description o) /\
    field h' f "children" = Some (VObj c) /\ h' !! c = Some [] /\
    (attributes o <> VUndefined ->
     field h' f "attributes" = Some (attributes o)) /\
    (attributes o = VUndefined ->
     exists a, field h' f "attributes" = Some (VObj a) /\
               h !! a = None /\ h' !! a = Some []) /\
    (forall l, is_Some (h !! l) -> h' !! l = h !! l).
Proof.
  intros Hv.
  destruct (createTaxonFrame_run h o parent Hv)
    as (a & c & f & h1 & Hcase & Hc & Hf & Hcf & Hprotos & Hcp & Hfp & Hrun).
  exists f, c. eexists. split; [exact Hrun|].
  assert (forall l, h1 !! l = None -> h !! l = None) as Hback.
  { intros l Hl. destruct Hcase as [(_ & al & _ & _ & ->)|(_ & _ & ->)];
      [|done].
    destruct (decide (al = l)) as [->|Hne].
    - by rewrite hlookup_insert_eq in Hl.
    - by rewrite hlookup_insert_ne in Hl. }
  split; [by apply Hback|]. split; [by apply Hback|].
  rewrite !field_insert_eq. simpl.
  do 4 (split; [done|]).
  split; [by rewrite hlookup_insert_ne, hlookup_insert_eq|].
  split; [|split].
  - intros Hne. destruct Hcase as [(Hu & _)|(_ & -> & _)]; [done|done].
  - intros Hu. destruct Hcase as [(_ & al & -> & Hal & ->)|(Hne & _)];
      [|done].
    exists al. split; [done|]. split; [done|].
    assert (al <> c) by (intros ->; by rewrite hlookup_insert_eq in Hc).
    assert (al <> f) by (intros ->; by rewrite hlookup_insert_eq in Hf).
    rewrite hlookup_insert_ne by done. rewrite hlookup_insert_ne by done.
    apply hlookup_insert_eq.
  - intros l [x Hx].
    assert (h1 !! l = Some x) as Hl1.
    { destruct Hcase as [(_ & al & _ & Hal & ->)|(_ & _ & ->)]; [|done].
      rewrite hlookup_insert_ne; [done|congruence]. }
    rewrite !hlookup_insert_ne; congruence.
Qed.

(** C5 at the loaded heap: one more frame under the root. *)
Lemma createTaxonFrame_new_frame_witness :
  exists f c h',
    createTaxonFrame
      (Options (VStr "Ascomycota") (VStr "Phylum") VUndefined VUndefined)
      fungiTaxonomy taxonomy_heap = Some (VObj f, h') /\
    taxonomy_heap !! f = None /\ taxonomy_heap !! c = None /\
    field h' f "name" = Some (VStr "Ascomycota") /\
    field h' f "rank" = Some (VStr "Phylum") /\
    field h' f "description" = Some VUndefined /\
    field h' f "children" = Some (VObj c) /\ h' !! c = Some [] /\
    (VUndefined <> VUndefined ->
     field h' f "attributes" = Some VUndefined) /\
    (VUndefined = VUndefined ->
     exists a, field h' f "attributes" = Some (VObj a) /\
               taxonomy_heap !! a = None /\ h' !! a = Some []) /\
    (forall l, is_Some (taxonomy_heap !! l) ->
               h' !! l = taxonomy_heap !! l).
Proof.
  apply (createTaxonFrame_new_frame taxonomy_heap
           (Options (VStr "Ascomycota") (VStr "Phylum")
              VUndefined VUndefined) fungiTaxonomy).
  vm_compute. eauto.
Defined.


(** C1, as the code has it: the new frame carries [inheritedDomain]
    exactly when the parent is an object whose [domain] is truthy at the
    time of the call, and then it holds that value; a parent that is
    missing, or whose [domain] is absent or falsy, leaves the frame
    without the property.  The [domain] of the parent is what
    [parentFrame.domain] reads before the call: the parent's own
    property when it has one, and for a parent that kept the prototype
    it was made with, nothing else.  The value is a copy: assigning the
    parent's [domain] afterwards does not change the frame's
    [inheritedDomain]. *)
Theorem createTaxonFrame_inheritedDomain (h : heap) o parent :
  valid h parent ->
  exists f h',
    createTaxonFrame o parent h = Some (VObj f, h') /\
    field h' f "inheritedDomain" =
      match parent with
      | VObj p =>
          if truthy (read h p "domain") then Some (read h p "domain")
          else None
      | _ => None
      end /\
    (forall p, parent = VObj p ->
       match field h p "domain" with
       | Some d => read h p "domain" = d
       | None =>
           (forall q, proto_of h p <> ProtoObj q) ->
           read h p "domain" = VUndefined
       end) /\
    forall p x h'',
      parent = VObj p ->
      set (VObj p) "domain" x h' = Some (tt, h'') ->
      field h'' f "inheritedDomain" = field h' f "inheritedDomain".
Proof.
  intros Hv.
  destruct (createTaxonFrame_run h o parent Hv)
    as (a & c & f & h1 & Hcase & Hc & Hf & Hcf & Hprotos & Hcp & Hfp & Hrun).
  exists f. eexists. split; [exact Hrun|].
  destruct parent as [| |b|z| |s|p];
    try (split; [by rewrite field_insert_eq|]; split; done).
  cbv beta iota zeta in Hrun |- *.
  split; [|split].
  - rewrite field_insert_eq.
    by destruct (truthy (read h p "domain")).
  - intros ? [= <-].
    destruct (field h p "domain") as [d|] eqn:E.
    + by apply read_own.
    + intros Hplain. by rewrite read_plain, E.
  - intros ? x h'' [= <-] Hset.
    destruct Hv as [po Hpo].
    assert (h1 !! p = Some po) as Hp1.
    { destruct Hcase as [(_ & al & _ & Hal & ->)|(_ & _ & ->)]; [|done].
      rewrite hlookup_insert_ne; [done|congruence]. }
    assert (p <> f) by congruence. assert (p <> c) by congruence.
    rewrite set_own in Hset by done.
    rewrite hlookup_insert_ne in Hset by done.
    rewrite hlookup_insert_ne in Hset by done.
    rewrite Hp1 in Hset. injection Hset as <-.
    by rewrite field_insert_ne.
Qed.

(** C1 at the loaded heap: a frame constructed under the root. *)
Lemma createTaxonFrame_inheritedDomain_witness :
  exists f h',
    createTaxonFrame
      (Options (VStr "Ascomycota") (VStr "Phylum") VUndefined VUndefined)
      fungiTaxonomy taxonomy_heap = Some (VObj f, h') /\
    field h' f "inheritedDomain" =
      match fungiTaxonomy with
      | VObj p =>
          if truthy (read taxonomy_heap p "domain")
          then Some (read taxonomy_heap p "domain")
          else None
      | _ => None
      end /\
    (forall p, fungiTaxonomy = VObj p ->
       match field taxonomy_heap p "domain" with
       | Some d => read taxonomy_heap p "domain" = d
       | None =>
           (forall q, proto_of taxonomy_heap p <> ProtoObj q) ->
           read taxonomy_heap p "domain" = VUndefined
       end) /\
    forall p x h'',
      fungiTaxonomy = VObj p ->
      set (VObj p) "domain" x h' = Some (tt, h'') ->
      field h'' f "inheritedDomain" = field h' f "inheritedDomain".
Proof.
  apply (createTaxonFrame_inheritedDomain taxonomy_heap
           (Options (VStr "Ascomycota") (VStr "Phylum")
              VUndefined VUndefined) fungiTaxonomy).
  vm_compute. eauto.
Defined.

(** C1 as stated fails: the root carries a [domain] field holding the
    empty string, and the child constructed with that root as its parent
    has no [inheritedDomain]. *)
Lemma empty_domain_not_inherited :
  exists root child h,
    empty_domain_module ∅ = Some ((VObj root, VObj child), h) /\
    field h root "domain" = Some (VStr "") /\
    field h child "name" = Some (VStr "Chytridiomycota") /\
    field h child "inheritedDomain" = None.
Proof. do 3 eexists. vm_compute. done. Qed.

(** One attach under a key other than [__proto__], step by step. *)
Lemma attachChild_run (h : heap) p cs o k c :
  k <> "__proto__" ->
  field h p "children" = Some (VObj cs) ->
  h !! cs = Some o ->
  attachChild (VObj p) k c h = Some (tt, <[cs := set_prop o k c]> h).
Proof.
  intros Hk H1 H2. unfold attachChild, bind. simpl.
  rewrite (read_own _ _ _ _ H1).
  unfold field in H1. destruct (h !! p) as [po|]; [|done].
  by rewrite set_own, H2.
Qed.




(** *** Walking a heap *)

Lemma heap_forall_sound P (h : heap) l o :
  heap_forall P h = true -> h !! l = Some o -> P l o = true.
Proof.
  unfold heap_forall. rewrite forallb_forall. intros H Hl.
  apply (H (l, o)). apply list_elem_of_In. by apply elem_of_map_to_list.
Qed.

Lemma child_entries_spec (h : heap) p k c :
  In (k, c) (child_entries h p) <-> child_at h p k c.
Proof.
  unfold child_entries, child_at. split.
  - destruct (field h p "children") as [[| | | | | |cs]|] eqn:E; try done.
    destruct (h !! cs) as [o|] eqn:Eo; [|done].
    intros H%list_elem_of_In%list_elem_of_omap. destruct H as (k' & _ & H).
    exists cs. split; [done|]. unfold field. rewrite Eo.
    destruct (get_prop o k') as [[| | | | | |c']|] eqn:Ek; try done.
    by injection H as <- <-.
  - intros (cs & -> & H). unfold field in H.
    destruct (h !! cs) as [o|]; [|done].
    apply list_elem_of_In, list_elem_of_omap. exists k. split.
    + apply list_elem_of_In. by eapply get_prop_key.
    + by rewrite H.
Qed.

Lemma follow_snoc (h : heap) r path k l :
  follow h r (path ++ [k]) = Some l <->
  exists p, follow h r path = Some p /\ child_at h p k l.
Proof.
  revert r. induction path as [|k0 path IH]; intros r; simpl.
  - unfold child_at. split.
    + destruct (field h r "children") as [[| | | | | |cs]|] eqn:E1;
        try done.
      destruct (field h cs k) as [[| | | | | |c]|] eqn:E2; try done.
      intros [= ->]. exists r. split; [done|]. by exists cs.
    + intros (p & [= <-] & cs & -> & ->). done.
  - destruct (field h r "children") as [[| | | | | |cs]|];
      try (split; [done|by intros (? & ? & ?)]).
    destruct (field h cs k0) as [[| | | | | |c]|];
      try (split; [done|by intros (? & ? & ?)]).
    apply IH.
Qed.

Lemma walk_sound (h : heap) fuel r path l :
  In (path, l) (walk h fuel r) -> follow h r path = Some l.
Proof.
  revert r path. induction fuel as [|n IH]; intros r path; simpl.
  - intros [[= <- <-]|[]]. done.
  - intros [[= <- <-]|H]; [done|].
    apply in_flat_map in H as ([k c] & Hkc & H).
    apply in_map_iff in H as ([p x] & [= <- <-] & H).
    apply child_entries_spec in Hkc as (cs & Hcs & Hc).
    simpl. rewrite Hcs, Hc. by apply IH.
Qed.

Lemma descendant_ascends (h : heap) a b :
  edges_ascend h = true -> descendant h a b -> a < b.
Proof.
  intros Hasc.
  assert (forall p c, child_of h p c -> p < c) as Hedge.
  { intros p c [k Hk]. pose proof Hk as (cs & Hcs & _).
    unfold field in Hcs. destruct (h !! p) as [po|] eqn:Ep; [|done].
    pose proof (heap_forall_sound _ _ _ _ Hasc Ep) as H. simpl in H.
    rewrite forallb_forall in H.
    apply child_entries_spec in Hk. apply H in Hk. simpl in Hk.
    by apply Nat.ltb_lt in Hk. }
  induction 1 as [p c H|p c d H _ IH].
  - by apply Hedge.
  - apply Hedge in H. lia.
Qed.



(** *** What the checks establish *)

Section Checked.
Variable h : heap.

Lemma field_Some l k v :
  field h l k = Some v -> exists o, h !! l = Some o /\ get_prop o k = Some v.
Proof. unfold field. destruct (h !! l) as [o|]; [eauto|done]. Qed.

Lemma child_entries_checked (Q : loc -> loc -> bool) :
  heap_forall
    (fun p _ => forallb (fun '(_, c) => Q p c) (child_entries h p)) h
    = true ->
  forall p k c, child_at h p k c -> Q p c = true.
Proof.
  intros Hchk p k c Hk. pose proof Hk as (cs & Hcs & _).
  apply field_Some in Hcs as (po & Ep & _).
  pose proof (heap_forall_sound _ _ _ _ Hchk Ep) as H. simpl in H.
  rewrite forallb_forall in H.
  apply child_entries_spec in Hk. by apply H in Hk.
Qed.

Lemma edges_ascend_sound :
  edges_ascend h = true -> forall a b, descendant h a b -> a < b.
Proof. intros H a b. by apply descendant_ascends. Qed.

Lemma never_a_child_sound r :
  never_a_child h r = true -> forall p, ~ child_of h p r.
Proof.
  intros Hchk p [k Hk].
  apply (child_entries_checked (fun _ c => negb (c =? r)%nat) Hchk) in Hk.
  by rewrite Nat.eqb_refl in Hk.
Qed.

Lemma inherited_only_below_sound r d :
  inherited_only_below h r d = true ->
  forall p k c, child_at h p k c ->
    field h c "inheritedDomain" = if (p =? r)%nat then Some d else None.
Proof.
  intros Hchk p k c Hk.
  apply (child_entries_checked
           (fun p c => bool_decide
              (field h c "inheritedDomain" =
               if (p =? r)%nat then Some d else None)) Hchk) in Hk.
  by apply bool_decide_eq_true in Hk.
Qed.

Lemma domain_only_at_sound r :
  domain_only_at h r = true ->
  forall l, l <> r -> field h l "domain" = None.
Proof.
  intros Hchk l Hne. unfold field.
  destruct (h !! l) as [o|] eqn:El; [|done].
  pose proof (heap_forall_sound _ _ _ _ Hchk El) as H. simpl in H.
  apply Nat.eqb_neq in Hne. rewrite Hne in H.
  by apply bool_decide_eq_true in H.
Qed.

Lemma lower_ranks_inherit_nothing_sound :
  lower_ranks_inherit_nothing h = true ->
  forall l r, field h l "rank" = Some r -> lower_rank r = true ->
    field h l "inheritedDomain" = None.
Proof.
  intros Hchk l r Hr Hlow. unfold field in *.
  destruct (h !! l) as [o|] eqn:El; [|done].
  pose proof (heap_forall_sound _ _ _ _ Hchk El) as H. simpl in H.
  rewrite Hr, Hlow in H. by apply bool_decide_eq_true in H.
Qed.

Lemma keys_are_names_sound :
  keys_are_names h = true ->
  forall p cs k v,
    field h p "children" = Some (VObj cs) -> field h cs k = Some v ->
    exists c, v = VObj c /\ field h c "name" = Some (VStr k).
Proof.
  intros Hchk p cs k v Hcs Hk.
  pose proof Hcs as (po & Ep & _)%field_Some.
  pose proof (heap_forall_sound _ _ _ _ Hchk Ep) as H. simpl in H.
  rewrite Hcs in H. apply field_Some in Hk as (o & Eo & Hk).
  rewrite Eo, forallb_forall in H. apply get_prop_In, H in Hk.
  destruct v as [| | | | | |c]; try done.
  exists c. split; [done|]. by apply bool_decide_eq_true in Hk.
Qed.

Lemma frames_hang_below_sound fuel r fs :
  frames_hang_below h fuel r fs = true ->
  forall v, In v fs ->
    exists l, v = VObj l /\ reachable h r l /\
      (l <> r -> exists p, In (VObj p) fs /\ child_of h p l).
Proof.
  unfold frames_hang_below. rewrite forallb_forall.
  intros Hchk v Hv. specialize (Hchk v Hv).
  destruct v as [| | | | | |l]; try done. exists l. split; [done|].
  apply andb_true_iff in Hchk as [Hreach Hpar]. split.
  - apply existsb_exists in Hreach as ([path x] & Hin & Hx).
    apply Nat.eqb_eq in Hx as ->. exists path. by eapply walk_sound.
  - intros Hne. apply orb_true_iff in Hpar as [Heq|Hpar].
    { by apply Nat.eqb_eq in Heq. }
    apply existsb_exists in Hpar as (pv & Hpv & Hp).
    destruct pv as [| | | | | |p]; try done. exists p. split; [done|].
    apply existsb_exists in Hp as ([k c] & Hin & Hc).
    apply Nat.eqb_eq in Hc as ->. exists k. by apply child_entries_spec.
Qed.

(** Where [inheritedDomain] and [domain] sit, by depth below [r]. *)
Lemma inherited_by_depth r d path l :
  never_a_child h r = true ->
  inherited_only_below h r d = true ->
  domain_only_at h r = true ->
  lower_ranks_inherit_nothing h = true ->
  field h r "inheritedDomain" = None ->
  field h r "domain" = Some d ->
  (forall rk, field h r "rank" = Some rk -> lower_rank rk = false) ->
  follow h r path = Some l ->
  field h l "inheritedDomain" =
    (if (length path =? 1)%nat then Some d else None) /\
  field h l "domain" =
    (if (length path =? 0)%nat then Some d else None) /\
  (forall rk, field h l "rank" = Some rk ->
              lower_rank rk = true -> 2 <= length path).
Proof.
  intros Hroot Hinh Hdom Hlow Hr1 Hr2 Hr3 Hpath.
  assert (forall path' k x, follow h r (path' ++ [k]) = Some x -> x <> r)
    as Hbelow.
  { intros path' k x (p & _ & Hk)%follow_snoc ->.
    apply (never_a_child_sound _ Hroot p). by exists k. }
  assert (field h l "inheritedDomain" =
          if (length path =? 1)%nat then Some d else None) as H1.
  { destruct path as [|k path _] using rev_ind.
    - by injection Hpath as <-.
    - apply follow_snoc in Hpath as (p & Hp & Hk).
      rewrite (inherited_only_below_sound _ _ Hinh _ _ _ Hk), length_app.
      destruct path as [|k' path _] using rev_ind.
      + injection Hp as <-. by rewrite Nat.eqb_refl.
      + apply Hbelow, Nat.eqb_neq in Hp. rewrite Hp, length_app. simpl.
        by replace (length path + 1 + 1 =? 1)%nat with false
          by (symmetry; apply Nat.eqb_neq; lia). }
  split; [done|]. split.
  - destruct path as [|k path _] using rev_ind.
    + by injection Hpath as <-.
    + rewrite length_app. simpl.
      replace (length path + 1 =? 0)%nat with false
        by (symmetry; apply Nat.eqb_neq; lia).
      by eapply domain_only_at_sound, Hbelow.
  - intros rk Hrk Hl.
    pose proof (lower_ranks_inherit_nothing_sound Hlow _ _ Hrk Hl) as H.
    destruct path as [|k [|k' path]]; simpl in H1 |- *; [|congruence|lia].
    injection Hpath as <-. apply Hr3 in Hrk. congruence.
Qed.

End Checked.

(** *** The loaded taxonomy *)

(** C3: the exported tree has the frame named Fungi, of rank Kingdom, as
    its root; the root is no object's child; every frame the module
    constructs is reachable from the root through [children] lookups and,
    the root apart, is the child of a constructed frame; and no object
    is among its own descendants. *)
Theorem fungiTaxonomy_rooted_tree :
  exists root,
    fungiTaxonomy = VObj root /\
    field taxonomy_heap root "name" = Some (VStr "Fungi") /\
    field taxonomy_heap root "rank" = Some (VStr "Kingdom") /\
    (forall p, ~ child_of taxonomy_heap p root) /\
    (forall v, In v frames ->
       exists l, v = VObj l /\ reachable taxonomy_heap root l /\
         (l <> root ->
          exists p, In (VObj p) frames /\ child_of taxonomy_heap p l)) /\
    (forall n, ~ descendant taxonomy_heap n n).
Proof.
  exists 2. split; [vm_compute; reflexivity|].
  split; [vm_compute; reflexivity|]. split; [vm_compute; reflexivity|].
  split; [apply never_a_child_sound; vm_compute; reflexivity|]. split.
  - apply (frames_hang_below_sound taxonomy_heap 4). vm_compute. reflexivity.
  - intros n Hn. apply edges_ascend_sound in Hn; [lia|].
    vm_compute. reflexivity.
Qed.

(** C2: a node reached from the root along [path] carries
    [inheritedDomain], equal to ["Eukaryota"], exactly when the path has
    one key, that is, when it is a direct child of the root; it carries
    [domain] exactly when it is the root; and a frame ranked Class, Order
    or Genus lies two or more lookups down. *)
Theorem inheritedDomain_by_depth root path l :
  fungiTaxonomy = VObj root ->
  follow taxonomy_heap root path = Some l ->
  field taxonomy_heap l "inheritedDomain" =
    (if (length path =? 1)%nat then Some (VStr "Eukaryota") else None) /\
  field taxonomy_heap l "domain" =
    (if (length path =? 0)%nat then Some (VStr "Eukaryota") else None) /\
  (forall r, field taxonomy_heap l "rank" = Some r ->
             lower_rank r = true -> 2 <= length path).
Proof.
  intros Hroot.
  assert (root = 2) as -> by (vm_compute in Hroot; congruence).
  apply inherited_by_depth; try (vm_compute; reflexivity).
  intros rk Hrk. vm_compute in Hrk. by injection Hrk as <-.
Qed.

(** C2 at the first phylum. *)
Lemma inheritedDomain_by_depth_witness :
  field taxonomy_heap 5 "inheritedDomain" = Some (VStr "Eukaryota") /\
  field taxonomy_heap 5 "domain" = None /\
  (forall r, field taxonomy_heap 5 "rank" = Some r ->
             lower_rank r = true -> 2 <= 1).
Proof.
  apply (inheritedDomain_by_depth 2 ["Chytridiomycota"] 5).
  - vm_compute. reflexivity.
  - vm_compute. reflexivity.
Defined.

(** C4: whatever a reachable node's [children] holds under a key [k] is
    a frame whose [name] is [k]. *)
Theorem children_keys_are_names root p cs k v :
  fungiTaxonomy = VObj root ->
  reachable taxonomy_heap root p ->
  field taxonomy_heap p "children" = Some (VObj cs) ->
  field taxonomy_heap cs k = Some v ->
  exists c, v = VObj c /\ field taxonomy_heap c "name" = Some (VStr k).
Proof.
  intros _ _. apply keys_are_names_sound. vm_compute. reflexivity.
Qed.

(** C4 at the first phylum and its first class. *)
Lemma children_keys_are_names_witness :
  exists c, VObj 8 = VObj c /\
            field taxonomy_heap c "name" = Some (VStr "Chytridiomycetes").
Proof.
  apply (children_keys_are_names 2 5 4 "Chytridiomycetes" (VObj 8)).
  - vm_compute. reflexivity.
  - exists ["Chytridiomycota"]. vm_compute. reflexivity.
  - vm_compute. reflexivity.
  - vm_compute. reflexivity.
Defined.

End StoreFacts.

(** ** The tree view *)

Module ViewFacts.
Import View.

Lemma has_children_spec data :
  has_children data = true <->
  exists cs, children data = Some cs /\ cs <> [].
Proof.
  unfold has_children. destruct (children data) as [cs|].
  - rewrite Object_keys_length. destruct cs; simpl.
    + split; [done|]. by intros (? & [= <-] & ?).
    + split; [|done]. intros _. by eexists.
  - split; [done|]. by intros (? & ? & ?).
Qed.

Lemma has_description_spec data :
  has_description data = true <->
  exists d, description data = Some d /\ d <> "".
Proof.
  unfold has_description. destruct (description data) as [d|].
  - rewrite negb_true_iff, String.eqb_neq. split; [by eexists|].
    by intros (? & [= <-] & ?).
  - split; [done|]. by intros (? & ? & ?).
Qed.

(** Child component elements hold no button, handler or text of the node
    that renders them. *)
Section ChildElements.
Variable level : float.
Let child := fun '(k, c) => TaxonomyLevelElem k c level.

Lemma handlers_children cs : flat_map handlers (map child cs) = [].
Proof. induction cs as [|[k c] cs IH]; simpl; [done|apply IH]. Qed.

Lemma buttons_children cs : flat_map buttons (map child cs) = [].
Proof. induction cs as [|[k c] cs IH]; simpl; [done|apply IH]. Qed.

Lemma texts_children cs : flat_map texts (map child cs) = [].
Proof. induction cs as [|[k c] cs IH]; simpl; [done|apply IH]. Qed.

Lemma components_children cs :
  flat_map components (map child cs) =
  map (fun '(k, c) => (k, c, level)) cs.
Proof.
  induction cs as [|[k c] cs IH]; simpl; [done|]. by rewrite IH.
Qed.
End ChildElements.

(** Case analysis on everything one render branches on, with the
    colour string abstracted. *)
Ltac render_cases data st hue :=
  unfold TaxonomyLevel; generalize (getRandomColor hue); intros bg;
  destruct (has_children data), (has_description data),
    (description data) as [d|], (children data) as [cs|],
    (expanded st), (showDescription st);
  cbn [handlers buttons texts components flat_map app when andb negb];
  try destruct (String.eqb d "");
  cbn [handlers buttons texts components flat_map app when andb negb
       default];
  rewrite ?handlers_children, ?buttons_children, ?texts_children,
    ?components_children, ?app_nil_r;
  try reflexivity.

(** The handlers, buttons, texts and child elements of one render. *)
Lemma handlers_TaxonomyLevel data level st hue :
  handlers (TaxonomyLevel data level st hue) =
    when (has_children data) (SetExpanded (negb (expanded st)))
    ++ when (has_description data)
         (SetShowDescription (negb (showDescription st))).
Proof. render_cases data st hue. Qed.

Lemma buttons_TaxonomyLevel data level st hue :
  buttons (TaxonomyLevel data level st hue) =
    when (has_children data)
      (Button "ghost" "sm" "mr-2 text-white hover:text-gray-200"
         (SetExpanded (negb (expanded st)))
         [Icon (if expanded st then ChevronDown else ChevronRight) 20])
    ++ when (has_description data)
         (Button "outline" "sm"
            "bg-white bg-opacity-20 text-white border-white border-opacity-40 hover:bg-opacity-30"
            (SetShowDescription (negb (showDescription st)))
            [Text (if showDescription st then "Hide" else "Show");
             Text " Description"]).
Proof. render_cases data st hue. Qed.

Lemma texts_TaxonomyLevel data level st hue :
  texts (TaxonomyLevel data level st hue) =
    [replace_underscores (name data); " "; "("; rank data; ")"]
    ++ (if has_description data
        then [if showDescription st then "Hide" else "Show"; " Description"]
        else [])
    ++ match description data with
       | Some d => when (showDescription st && negb (String.eqb d "")) d
       | None => []
       end.
Proof. render_cases data st hue. Qed.

Lemma components_TaxonomyLevel data level st hue :
  components (TaxonomyLevel data level st hue) =
    if expanded st
    then map (fun '(k, c) => (k, c, (level + 1)%float))
           (Object_entries (default [] (children data)))
    else [].
Proof. render_cases data st hue. Qed.


Lemma control_button_expand data level st hue :
  control_button ExpandControl (TaxonomyLevel data level st hue) =
    if has_children data
    then Some (Button "ghost" "sm" "mr-2 text-white hover:text-gray-200"
                 (SetExpanded (negb (expanded st)))
                 [Icon (if expanded st then ChevronDown else ChevronRight)
                    20])
    else None.
Proof.
  unfold control_button. rewrite buttons_TaxonomyLevel.
  by destruct (has_children data), (has_description data).
Qed.

Lemma control_button_description data level st hue :
  control_button DescriptionControl (TaxonomyLevel data level st hue) =
    if has_description data
    then Some (Button "outline" "sm"
                 "bg-white bg-opacity-20 text-white border-white border-opacity-40 hover:bg-opacity-30"
                 (SetShowDescription (negb (showDescription st)))
                 [Text (if showDescription st then "Hide" else "Show");
                  Text " Description"])
    else None.
Proof.
  unfold control_button. rewrite buttons_TaxonomyLevel.
  by destruct (has_children data), (has_description data).
Qed.

Lemma click_expand data level hue st :
  click ExpandControl data level hue st =
    if has_children data
    then Some (State (negb (expanded st)) (showDescription st))
    else None.
Proof.
  unfold click. rewrite handlers_TaxonomyLevel.
  by destruct (has_children data), (has_description data).
Qed.

Lemma click_description data level hue st :
  click DescriptionControl data level hue st =
    if has_description data
    then Some (State (expanded st) (negb (showDescription st)))
    else None.
Proof.
  unfold click. rewrite handlers_TaxonomyLevel.
  by destruct (has_children data), (has_description data).
Qed.

(** C6: the render shows an expand control exactly when the node's
    [children] is present and not empty, whatever the state; a handler of
    the render that changes [expanded] is the handler of that control;
    and that handler sets [expanded] to its negation. *)
Theorem expand_control_iff_children data level st hue :
  (is_Some (control_button ExpandControl (TaxonomyLevel data level st hue))
   <-> exists cs, children data = Some cs /\ cs <> []) /\
  (children data = None \/ children data = Some [] ->
   control_button ExpandControl (TaxonomyLevel data level st hue) = None) /\
  (forall f, In f (handlers (TaxonomyLevel data level st hue)) ->
     expanded (run_handler f st) <> expanded st ->
     f = SetExpanded (negb (expanded st)) /\
     is_Some
       (control_button ExpandControl (TaxonomyLevel data level st hue))) /\
  (forall b, In (SetExpanded b) (handlers (TaxonomyLevel data level st hue))
     -> b = negb (expanded st)).
Proof.
  rewrite control_button_expand, handlers_TaxonomyLevel.
  rewrite <- has_children_spec.
  split; [|split; [|split]].
  - destruct (has_children data); split; try done.
    all: by intros [? ?].
  - intros H. destruct (has_children data) eqn:E; [|done].
    apply has_children_spec in E as (cs & Hcs & Hne).
    destruct H as [H|H]; congruence.
  - intros f Hf Hchg. apply in_app_or in Hf as [Hf|Hf].
    + destruct (has_children data); [|done].
      destruct Hf as [<-|[]]. split; [done|]. by eexists.
    + destruct (has_description data); [|done].
      by destruct Hf as [<-|[]].
  - intros b Hb. apply in_app_or in Hb as [Hb|Hb].
    + destruct (has_children data); [|done].
      by destruct Hb as [[= <-]|[]].
    + destruct (has_description data); [|done].
      by destruct Hb as [Hb|[]].
Qed.

(** C7: the render shows a description toggle exactly when [description]
    is present and not empty; its label is "Hide Description" when the
    description is shown and "Show Description" when it is hidden; and
    the text nodes of the render are the name, the rank, the label of
    the toggle when there is one, and the description itself when it is
    present, not empty and shown, and nothing else. *)
Theorem description_control_iff_description data level st hue :
  (is_Some
     (control_button DescriptionControl (TaxonomyLevel data level st hue))
   <-> exists d, description data = Some d /\ d <> "") /\
  (forall b,
     control_button DescriptionControl (TaxonomyLevel data level st hue)
       = Some b ->
     text_content b =
       if showDescription st then "Hide Description"
       else "Show Description") /\
  texts (TaxonomyLevel data level st hue) =
    [replace_underscores (name data); " "; "("; rank data; ")"]
    ++ (if has_description data
        then [if showDescription st then "Hide" else "Show";
              " Description"]
             ++ (if showDescription st
                 then [default "" (description data)] else [])
        else []).
Proof.
  rewrite control_button_description, texts_TaxonomyLevel.
  rewrite <- has_description_spec.
  split; [|split].
  - destruct (has_description data); split; try done.
    all: by intros [? ?].
  - intros b Hb. destruct (has_description data); [|done].
    injection Hb as <-. by destruct (showDescription st).
  - unfold has_description. destruct (description data) as [d|]; [|done].
    by destruct (String.eqb d ""), (showDescription st).
Qed.

(** C8: both state cells start at [false]; a click on a control flips the
    cell of that control and leaves the other; and a second click on the
    same control brings the state back, so that the instance renders as
    it did before the two clicks. *)
Theorem toggle_twice data level hue hue' c st st' :
  click c data level hue st = Some st' ->
  (expanded initial = false /\ showDescription initial = false) /\
  match c with
  | ExpandControl =>
      expanded st' = negb (expanded st) /\
      showDescription st' = showDescription st
  | DescriptionControl =>
      showDescription st' = negb (showDescription st) /\
      expanded st' = expanded st
  end /\
  click c data level hue' st' = Some st /\
  (forall st'' h,
     click c data level hue' st' = Some st'' ->
     TaxonomyLevel data level st'' h = TaxonomyLevel data level st h).
Proof.
  intros Hclick. split; [done|].
  assert (click c data level hue' st' = Some st) as Hback.
  { destruct c.
    - rewrite click_expand in *. destruct (has_children data); [|done].
      injection Hclick as <-. simpl. rewrite negb_involutive.
      by destruct st.
    - rewrite click_description in *.
      destruct (has_description data); [|done].
      injection Hclick as <-. simpl. rewrite negb_involutive.
      by destruct st. }
  split; [|split; [done|]].
  - destruct c.
    + rewrite click_expand in Hclick.
      destruct (has_children data); [|done]. by injection Hclick as <-.
    + rewrite click_description in Hclick.
      destruct (has_description data); [|done]. by injection Hclick as <-.
  - intros st'' h Hst''. rewrite Hback in Hst''. by injection Hst'' as <-.
Qed.

(** C8 on the sample root: expanding and collapsing it again. *)
Lemma toggle_twice_witness :
  (expanded initial = false /\ showDescription initial = false) /\
  (expanded (State true false) = negb (expanded initial) /\
   showDescription (State true false) = showDescription initial) /\
  click ExpandControl kingdomFungi 0 180 (State true false) = Some initial /\
  (forall st'' h,
     click ExpandControl kingdomFungi 0 180 (State true false) = Some st'' ->
     TaxonomyLevel kingdomFungi 0 st'' h
     = TaxonomyLevel kingdomFungi 0 initial h).
Proof.
  apply (toggle_twice kingdomFungi 0 0 180 ExpandControl initial
           (State true false)).
  vm_compute. reflexivity.
Defined.


(** *** The whole tree *)

Lemma mount_unfold fuel ui hues path e :
  mount fuel ui hues path e =
    match e with
    | Text _ | Icon _ _ => e
    | Div c s kids => Div c s (map (mount fuel ui hues path) kids)
    | Span c kids => Span c (map (mount fuel ui hues path) kids)
    | Button v s c f kids =>
        Button v s c f (map (mount fuel ui hues path) kids)
    | TaxonomyLevelElem k d l =>
        match fuel with
        | O => e
        | S n => render_tree n ui hues (path ++ [k]) d l
        end
    end.
Proof. destruct fuel, e; reflexivity. Qed.

Lemma rows_children n ui hues path level cs :
  flat_map row_labels
    (map (mount (S n) ui hues path)
       (map (fun '(k, c) => TaxonomyLevelElem k c level) cs)) =
  flat_map (fun '(k, c) =>
              row_labels (render_tree n ui hues (path ++ [k]) c level)) cs.
Proof.
  induction cs as [|[k c] cs IH]; [done|].
  cbn [map flat_map]. by rewrite IH, mount_unfold.
Qed.

Lemma rows_render_tree fuel ui hues path data level :
  row_labels (render_tree (S fuel) ui hues path data level) =
    label data ::
    if expanded (ui path)
    then flat_map
           (fun '(k, c) =>
              row_labels
                (render_tree fuel ui hues (path ++ [k]) c (level + 1)))
           (Object_entries (default [] (children data)))
    else [].
Proof.
  unfold render_tree at 1, TaxonomyLevel.
  generalize (getRandomColor (hues path)). intros bg.
  destruct (has_children data), (has_description data),
    (description data) as [d|], (children data) as [cs|],
    (expanded (ui path)), (showDescription (ui path));
  cbn [app when andb negb];
  try destruct (String.eqb d "");
  cbn [app when andb negb default];
  repeat (rewrite mount_unfold; cbn [map]).
  all: cbn -[mount render_tree label Object_entries String.append];
    rewrite ?rows_children, ?app_nil_r.
  all: reflexivity.
Qed.

Lemma components_render_tree fuel ui hues path data level :
  components (render_tree fuel ui hues path data level) =
    if expanded (ui path)
    then flat_map
           (fun '(k, c) =>
              components
                (mount fuel ui hues path
                   (TaxonomyLevelElem k c (level + 1))))
           (Object_entries (default [] (children data)))
    else [].
Proof.
  assert (forall cs,
    flat_map components
      (map (mount fuel ui hues path)
         (map (fun '(k, c) => TaxonomyLevelElem k c (level + 1)) cs)) =
    flat_map (fun '(k, c) =>
                components (mount fuel ui hues path
                              (TaxonomyLevelElem k c (level + 1)))) cs)
    as Hkids.
  { induction cs as [|[k c] cs IH]; [done|].
    cbn [map flat_map]. by rewrite IH. }
  unfold render_tree at 1, TaxonomyLevel.
  generalize (getRandomColor (hues path)). intros bg.
  destruct (has_children data), (has_description data),
    (description data) as [d|], (children data) as [cs|],
    (expanded (ui path)), (showDescription (ui path));
  cbn [app when andb negb];
  try destruct (String.eqb d "");
  cbn [app when andb negb default];
  repeat (rewrite mount_unfold; cbn [map]).
  all: cbn -[mount render_tree Object_entries String.append];
    rewrite ?Hkids, ?app_nil_r.
  all: reflexivity.
Qed.

Lemma height_child data cs k c :
  children data = Some cs -> In (k, c) cs -> height c < height data.
Proof.
  destruct data as [n r d a ch]. simpl. intros -> Hin.
  assert (Forall (fun x => x <= list_max (map (fun kc => height (snd kc)) cs))
            (map (fun kc => height (snd kc)) cs)) as H
    by (by apply list_max_le).
  rewrite Forall_forall in H.
  specialize (H (height c)). apply Nat.lt_succ_r, H.
  apply list_elem_of_In, in_map_iff. by exists (k, c).
Qed.

(** With fuel for the height of the tree, no component element is left
    unrendered. *)
Lemma render_tree_complete fuel ui hues path data level :
  height data <= fuel ->
  components (render_tree fuel ui hues path data level) = [].
Proof.
  revert path data level.
  induction fuel as [|n IH]; intros path data level Hh;
    rewrite components_render_tree; destruct (expanded (ui path)); try done.
  - destruct (children data) as [cs|] eqn:E; [|done].
    destruct data; simpl in *. subst. lia.
  - destruct (children data) as [cs|] eqn:E; [|done]. simpl.
    assert (forall kc, In kc (Object_entries cs) ->
              (let '(k, c) := kc in
               components (mount (S n) ui hues path
                             (TaxonomyLevelElem k c (level + 1)))) = [])
      as Hall.
    { intros [k c] Hin. apply (proj1 (Object_entries_In _ _)) in Hin.
      rewrite mount_unfold.
      apply IH. pose proof (height_child _ _ _ _ E Hin). lia. }
    induction (Object_entries cs) as [|kc l IHl]; [done|].
    cbn [flat_map]. rewrite IHl by (intros; apply Hall; by right).
    rewrite app_nil_r. destruct kc as [k c].
    apply (Hall (k, c)). by left.
Qed.

(** The rows of a rendered tree, whatever the fuel. *)
Lemma rows_render_tree_any fuel ui hues path data level :
  row_labels (render_tree fuel ui hues path data level) =
    label data ::
    if expanded (ui path)
    then flat_map
           (fun '(k, c) =>
              row_labels
                (mount fuel ui hues path
                   (TaxonomyLevelElem k c (level + 1))))
           (Object_entries (default [] (children data)))
    else [].
Proof.
  assert (forall cs,
    flat_map row_labels
      (map (mount fuel ui hues path)
         (map (fun '(k, c) => TaxonomyLevelElem k c (level + 1)) cs)) =
    flat_map (fun '(k, c) =>
                row_labels (mount fuel ui hues path
                              (TaxonomyLevelElem k c (level + 1)))) cs)
    as Hkids.
  { induction cs as [|[k c] cs IH]; [done|].
    cbn [map flat_map]. by rewrite IH. }
  unfold render_tree at 1, TaxonomyLevel.
  generalize (getRandomColor (hues path)). intros bg.
  destruct (has_children data), (has_description data),
    (description data) as [d|], (children data) as [cs|],
    (expanded (ui path)), (showDescription (ui path));
  cbn [app when andb negb];
  try destruct (String.eqb d "");
  cbn [app when andb negb default];
  repeat (rewrite mount_unfold; cbn [map]).
  all: cbn -[mount render_tree label Object_entries String.append];
    rewrite ?Hkids, ?app_nil_r.
  all: reflexivity.
Qed.

Lemma flat_map_Permutation_pointwise {A B} (f g : A -> list B) l :
  (forall x, In x l -> Permutation (f x) (g x)) ->
  Permutation (flat_map f l) (flat_map g l).
Proof.
  induction l as [|x l IH]; intros H; simpl; [constructor|].
  apply Permutation_app.
  - apply H. by left.
  - apply IH. intros y Hy. apply H. by right.
Qed.

Lemma plain_keys_children data cs :
  children data = Some cs ->
  plain_keys data = true ->
  Forall (fun e : string * Taxon => array_index (fst e) = None) cs /\
  (forall k c, In (k, c) cs -> plain_keys c = true).
Proof.
  intros E Hp. destruct data as [n r d a ch]. simpl in E. subst ch.
  simpl in Hp. rewrite forallb_forall in Hp. split.
  - apply List.Forall_forall. intros [k c] Hin.
    specialize (Hp _ Hin). simpl in Hp.
    apply andb_prop in Hp as [Hk _]. unfold is_index_key in Hk.
    simpl. by destruct (array_index k).
  - intros k c Hin. specialize (Hp _ Hin). simpl in Hp.
    by apply andb_prop in Hp as [_ Hc].
Qed.

Lemma labels_unfold data :
  labels data =
    label data ::
    flat_map (fun kc => labels (snd kc)) (default [] (children data)).
Proof. by destruct data as [n r d a [cs|]]. Qed.

(** With every node expanded and fuel for the height, the rows are the
    row headers of the nodes of the tree, each once. *)
Lemma rows_all_expanded fuel hues path t level :
  height t <= fuel ->
  Permutation (row_labels (render_tree fuel all_expanded hues path t level))
    (labels t).
Proof.
  revert path t level.
  induction fuel as [|fuel IH]; intros path t level Hh;
    rewrite rows_render_tree_any, labels_unfold;
    cbn [all_expanded expanded]; constructor.
  - destruct (children t) as [cs|] eqn:E; [|constructor].
    destruct t; simpl in *. subst. lia.
  - destruct (children t) as [cs|] eqn:E; [|constructor].
    cbn [default]. unfold id.
    rewrite <- (Permutation_flat_map (fun kc => labels (snd kc))
                  (Object_entries_perm cs)).
    apply flat_map_Permutation_pointwise. intros [k c] Hin.
    apply (proj1 (Object_entries_In _ _)) in Hin.
    change (Permutation
              (row_labels
                 (render_tree fuel all_expanded hues (path ++ [k]) c
                    (level + 1)))
              (labels c)).
    apply IH. pose proof (height_child _ _ _ _ E Hin). lia.
Qed.

(** And in creation order, parent before child, when no key is an array
    index. *)
Lemma rows_all_expanded_plain fuel hues path t level :
  height t <= fuel ->
  plain_keys t = true ->
  row_labels (render_tree fuel all_expanded hues path t level) = labels t.
Proof.
  revert path t level.
  induction fuel as [|fuel IH]; intros path t level Hh Hp;
    rewrite rows_render_tree_any, labels_unfold;
    cbn [all_expanded expanded]; apply f_equal.
  - destruct (children t) as [cs|] eqn:E; [|done].
    destruct t; simpl in *. subst. lia.
  - destruct (children t) as [cs|] eqn:E; [|done].
    cbn [default]. unfold id.
    destruct (plain_keys_children _ _ E Hp) as [Hkeys Hkids].
    rewrite (Object_entries_creation_order _ Hkeys).
    assert (forall kc, In kc cs ->
              height (snd kc) <= fuel /\ plain_keys (snd kc) = true) as Hall.
    { intros [k c] Hin. split; [|by apply (Hkids k)].
      pose proof (height_child _ _ _ _ E Hin). simpl. lia. }
    clear E Hkeys Hkids Hh Hp.
    induction cs as [|[k c] cs IHcs]; [done|].
    cbn [flat_map]. f_equal.
    + change (row_labels
                (render_tree fuel all_expanded hues (path ++ [k]) c
                   (level + 1)) = labels c).
      apply IH; apply (Hall (k, c)); by left.
    + apply IHcs. intros kc Hkc. apply Hall. by right.
Qed.

(** C9: an expanded node hands each entry of its [children], in the
    order [Object.entries] lists them, to the same component at
    [level + 1], and a collapsed node hands over nothing.  What an
    expanded node hands over is every entry of [children] once: first
    the entries under array-index keys, by ascending index, then the
    others in the order they were created.  In the rendered tree the row
    of a node comes first and the rows of its children follow in that
    order, each child's rows before the next child's; with fuel for the
    height of the tree every child so handed over is rendered; and with
    every node expanded the rows are the row headers of all the nodes of
    the tree, each once, in creation order parent before child when no
    key is an array index.  The level is a number of the source, so one
    more than [level] is their sum as doubles. *)
Theorem children_rendered_in_order data level :
  (forall st hue,
     components (TaxonomyLevel data level st hue) =
       if expanded st
       then map (fun '(k, c) => (k, c, (level + 1)%float))
              (Object_entries (default [] (children data)))
       else []) /\
  (forall cs st hue,
     children data = Some cs ->
     expanded st = true ->
     exists idx rest,
       components (TaxonomyLevel data level st hue) =
         map (fun '(k, c) => (k, c, (level + 1)%float)) (idx ++ rest) /\
       Permutation (idx ++ rest) cs /\
       rest = List.filter (fun e => negb (is_index_key (fst e))) cs /\
       Forall (fun e => is_index_key (fst e) = true) idx /\
       Sorted index_le idx) /\
  (forall fuel ui hues path,
     row_labels (render_tree (S fuel) ui hues path data level) =
       label data ::
       if expanded (ui path)
       then flat_map
              (fun '(k, c) =>
                 row_labels
                   (render_tree fuel ui hues (path ++ [k]) c (level + 1)))
              (Object_entries (default [] (children data)))
       else []) /\
  (forall fuel ui hues path,
     height data <= fuel ->
     components (render_tree fuel ui hues path data level) = []) /\
  (forall fuel hues path,
     height data <= fuel ->
     Permutation
       (row_labels (render_tree fuel all_expanded hues path data level))
       (labels data) /\
     (plain_keys data = true ->
      row_labels (render_tree fuel all_expanded hues path data level)
      = labels data)).
Proof.
  split; [|split; [|split; [|split]]].
  - intros. apply components_TaxonomyLevel.
  - intros cs st hue E Hexp.
    destruct (Object_entries_order cs) as (idx & Heq & Hidx & Hsorted).
    exists idx, (List.filter (fun e => negb (is_index_key (fst e))) cs).
    rewrite components_TaxonomyLevel, Hexp, E. cbn [default].
    rewrite <- Heq. repeat split; try done.
    apply Object_entries_perm.
  - intros. apply rows_render_tree.
  - intros. by apply render_tree_complete.
  - intros fuel hues path Hh. split.
    + by apply rows_all_expanded.
    + intros Hp. by apply rows_all_expanded_plain.
Qed.

(** Keys that are array indices come first, by number, whatever the order
    of creation: the entries 'b', '2', 'a', '1' are handed over as '1',
    '2', 'b', 'a'. *)
Example index_keys_first :
  let leaf n := mkTaxon n "Genus" None None None in
  map (fun x => fst (fst x))
    (components
       (TaxonomyLevel
          (mkTaxon "Fungi" "Kingdom" None None
             (Some [("b", leaf "B"); ("2", leaf "Two"); ("a", leaf "A");
                    ("1", leaf "One")]))
          0 (State true false) 0))
  = ["1"; "2"; "b"; "a"].
Proof. vm_compute. reflexivity. Qed.

(** The level is a double: at 2^53 the child is handed the same level. *)
Example level_saturates :
  map snd
    (components
       (TaxonomyLevel kingdomFungi 9007199254740992 (State true false) 0))
  = [9007199254740992%float].
Proof. vm_compute. reflexivity. Qed.

(** The chain root, phylum, class with every node expanded: three rows,
    parent before child. *)
Example expanded_chain_rows :
  row_labels
    (render_tree 2 (fun _ => State true false) (fun _ => 0%Z) []
       kingdomFungi 0) =
  ["Fungi (Kingdom)"; "Chytridiomycota (Phylum)"; "Chytridiomycetes (Class)"].
Proof. vm_compute. reflexivity. Qed.

(** Collapsed, the root shows its own row and an expand control, and no
    child. *)
Example collapsed_root_row :
  row_labels (render_tree 2 (fun _ => initial) (fun _ => 0%Z) []
                kingdomFungi 0) = ["Fungi (Kingdom)"] /\
  is_Some (control_button ExpandControl
             (TaxonomyLevel kingdomFungi 0 initial 0)) /\
  components (TaxonomyLevel kingdomFungi 0 initial 0) = [].
Proof. vm_compute. eauto. Qed.

(** A genus without children shows no expand control in either state. *)
Example leaf_has_no_expand_control :
  control_button ExpandControl
    (TaxonomyLevel genusChytridium 4 (State true false) 0) = None /\
  control_button ExpandControl
    (TaxonomyLevel genusChytridium 4 (State false false) 0) = None.
Proof. vm_compute. done. Qed.

(** The exported taxonomy, every node expanded: the rows come out parent
    before child, siblings in the order the module links them. *)
Example fungiTaxonomy_rows :
  (t ← as_Taxon Store.taxonomy_heap 5 2;
   Some (row_labels (render_tree 4 all_expanded (fun _ => 0%Z) [] t 0))) =
  Some
    ["Fungi (Kingdom)";
     "Chytridiomycota (Phylum)";
     "Chytridiomycetes (Class)";
     "Chytridiales (Order)";
     "Chytridium (Genus)";
     "Rhizophydiales (Order)";
     "Spizellomycetales (Order)";
     "Monoblepharidomycetes (Class)";
     "Monoblepharidales (Order)";
     "Neocallimastigomycota (Phylum)";
     "Neocallimastigomycetes (Class)";
     "Neocallimastigales (Order)";
     "Blastocladiomycota (Phylum)";
     "Blastocladiomycetes (Class)";
     "Blastocladiales (Order)";
     "Microsporidia (Phylum)";
     "Glomeromycota (Phylum)";
     "Archaeosporomycetes (Class)";
     "Archaeosporales (Order)";
     "Glomeromycetes (Class)";
     "Diversisporales (Order)";
     "Gigasporales (Order)";
     "Glomerales (Order)";
     "Paraglomeromycetes (Class)";
     "Paraglomerales (Order)";
     "Mucoromycotina (incertae sedis) (Subphylum)";
     "Mucorales (Order)";
     "Endogonales (Order)";
     "Mortierellales (Order)";
     "Entomophthoromycotina (incertae sedis) (Subphylum)";
     "Entomophthorales (Order)";
     "Zoopagomycotina (incertae sedis) (Subphylum)";
     "Zoopagales (Order)"].
Proof. vm_compute. reflexivity. Qed.

End ViewFacts.

(** ** More on the frame store *)

Module StoreLaws.
Import Store StoreFacts.
Local Open Scope js_scope.

(** A write changes no object but the one written to. *)
Lemma set_elsewhere (h h' : heap) v k x l :
  set v k x h = Some (tt, h') -> v <> VObj l -> h' !! l = h !! l.
Proof.
  destruct v as [| |b|z| |s|l0]; simpl; try done.
  1-4: destruct (String.eqb k "__proto__"); [|done]; by intros [= ->].
  destruct (h !! l0) as [o|]; [|done].
  destruct (String.eqb k "__proto__" && finds_proto_setter h (chain_fuel h) l0).
  - unfold set_prototype. destruct x as [| |b|z| |s|l']; try by intros [= <-].
    destruct (decide (proto_of h l0 = ProtoObj l')); [by intros [= <-]|].
    destruct (on_chain h (chain_fuel h) l' l0); [done|]. by intros [= <-].
  - intros [= <-] Hne. apply hlookup_insert_ne. congruence.
Qed.

(** What a successful attach did: the parent is an object of the heap,
    and the child was written to what its [children] reads as. *)
Lemma attachChild_inv (h : heap) parent k c r :
  attachChild parent k c h = Some r ->
  exists p, parent = VObj p /\ is_Some (h !! p) /\
            set (read h p "children") k c h = Some r.
Proof.
  intros Hr. unfold attachChild, bind in Hr.
  destruct parent as [| |b|z| |s|p]; try done.
  simpl in Hr. destruct (h !! p) as [po|] eqn:Ep; [|done].
  exists p. eauto.
Qed.

(** The same for a parent with a [children] object of its own and a key
    other than [__proto__]. *)
Lemma attachChild_own_inv (h : heap) p cs k c r :
  k <> "__proto__" ->
  field h p "children" = Some (VObj cs) ->
  attachChild (VObj p) k c h = Some r ->
  exists o, h !! cs = Some o /\ r = (tt, <[cs := set_prop o k c]> h).
Proof.
  intros Hk Hcs (p' & [= <-] & _ & Hset)%attachChild_inv.
  rewrite (read_own _ _ _ _ Hcs), set_own in Hset by done.
  destruct (h !! cs) as [o|]; [|done]. exists o. by injection Hset as <-.
Qed.

(** X1: under a key other than [__proto__] the linking statement throws
    exactly when the parent is not an object whose [children] reads as
    an object: on [undefined], [null] and the other primitives, and on an
    object without a [children] object. *)
Theorem attachChild_succeeds_iff (h : heap) parent k c :
  k <> "__proto__" ->
  is_Some (attachChild parent k c h) <->
  exists p cs, parent = VObj p /\ is_Some (h !! p) /\
               read h p "children" = VObj cs /\
               is_Some (h !! cs).
Proof.
  intros Hk. split.
  - intros [r (p & -> & Hp & Hset)%attachChild_inv].
    destruct (read h p "children") as [| |b|z| |s|cs] eqn:E; try done.
    1-4: simpl in Hset; apply String.eqb_neq in Hk; by rewrite Hk in Hset.
    exists p, cs. rewrite set_own in Hset by done.
    destruct (h !! cs); [eauto|done].
  - intros (p & cs & -> & [po Hp] & Hcs & [o Ho]).
    unfold attachChild, bind. simpl. rewrite Hp, Hcs.
    rewrite set_own, Ho by done. eauto.
Qed.

(** The loaded root and a new key. *)
Lemma attachChild_succeeds_iff_witness :
  is_Some (attachChild (VObj 2) "Ascomycota" (VObj 5) taxonomy_heap) <->
  exists p cs, VObj 2 = VObj p /\ is_Some (taxonomy_heap !! p) /\
               read taxonomy_heap p "children" = VObj cs /\
               is_Some (taxonomy_heap !! cs).
Proof.
  apply (attachChild_succeeds_iff taxonomy_heap (VObj 2) "Ascomycota"
           (VObj 5)).
  done.
Defined.

(** The statement on the values that are no frame. *)
Example attachChild_throws :
  attachChild VUndefined "Ascomycota" (VObj 5) taxonomy_heap = None /\
  attachChild VNull "Ascomycota" (VObj 5) taxonomy_heap = None /\
  attachChild (VStr "Fungi") "Ascomycota" (VObj 5) taxonomy_heap = None /\
  attachChild (VObj 1) "Ascomycota" (VObj 5) taxonomy_heap = None.
Proof. vm_compute. done. Qed.




(** X3: the linking statement checks nothing about the child: under a key
    other than [__proto__] a frame can be attached under itself, and is
    then its own descendant. *)
Theorem attachChild_makes_cycle (h : heap) p cs k :
  k <> "__proto__" ->
  field h p "children" = Some (VObj cs) ->
  is_Some (h !! cs) ->
  cs <> p ->
  exists h', attachChild (VObj p) k (VObj p) h = Some (tt, h') /\
             child_at h' p k p /\ descendant h' p p.
Proof.
  intros Hk Hcs [o Ho] Hne. eexists.
  split; [by apply attachChild_run|].
  assert (child_at (<[cs := set_prop o k (VObj p)]> h) p k p) as H.
  { exists cs. split.
    - by rewrite field_insert_ne.
    - by rewrite field_insert_eq, get_set_prop_eq. }
  split; [done|]. constructor. by exists k.
Qed.

(** The root of the loaded heap attached under itself. *)
Lemma attachChild_makes_cycle_witness :
  exists h', attachChild (VObj 2) "Fungi" (VObj 2) taxonomy_heap
               = Some (tt, h') /\
             child_at h' 2 "Fungi" 2 /\ descendant h' 2 2.
Proof.
  apply (attachChild_makes_cycle taxonomy_heap 2 1 "Fungi").
  - done.
  - vm_compute. reflexivity.
  - vm_compute. eauto.
  - lia.
Defined.

(** What one construction leaves in the heap. *)
Lemma createTaxonFrame_shape (h h' : heap) o parent f :
  valid h parent ->
  createTaxonFrame o parent h = Some (VObj f, h') ->
  exists c a,
    h !! f = None /\ h !! c = None /\ c <> f /\
    field h' f "children" = Some (VObj c) /\ h' !! c = Some [] /\
    field h' f "attributes" = Some a /\
    field h' f "domain" = None /\
    (attributes o = VUndefined ->
     exists al, a = VObj al /\ h !! al = None /\ is_Some (h' !! al)) /\
    (forall l, is_Some (h !! l) -> h' !! l = h !! l) /\
    protos h' = protos h /\ protos h !! f = None /\ protos h !! c = None /\
    field h' f "inheritedDomain" =
      match parent with
      | VObj p =>
          if truthy (read h p "domain") then Some (read h p "domain")
          else None
      | _ => None
      end.
Proof.
  intros Hv Hrun.
  destruct (createTaxonFrame_run h o parent Hv)
    as (a & c & f' & h1 & Hcase & Hc & Hf & Hcf & Hprotos & Hcp & Hfp
        & Hrun').
  rewrite Hrun in Hrun'. injection Hrun' as <- ->.
  assert (forall l, h1 !! l = None -> h !! l = None) as Hback.
  { intros l Hl. destruct Hcase as [(_ & al & _ & _ & ->)|(_ & _ & ->)];
      [|done].
    destruct (decide (al = l)) as [->|Hne].
    - by rewrite hlookup_insert_eq in Hl.
    - by rewrite hlookup_insert_ne in Hl. }
  exists c, a. rewrite !field_insert_eq.
  split; [by apply Hback|]. split; [by apply Hback|]. split; [done|].
  split; [done|].
  split; [by rewrite hlookup_insert_ne, hlookup_insert_eq|].
  split; [done|]. split; [|split; [|split; [|split; [|split; [|split]]]]];
    try done.
  - destruct parent as [| |b|z| |s|p]; try done.
    simpl. by destruct (truthy (read h p "domain")).
  - intros Hu. destruct Hcase as [(_ & al & -> & Hal & ->)|(Hne & _)];
      [|done].
    exists al. split; [done|]. split; [done|].
    assert (al <> c) by (intros ->; by rewrite hlookup_insert_eq in Hc).
    assert (al <> f) by (intros ->; by rewrite hlookup_insert_eq in Hf).
    rewrite hlookup_insert_ne by done. rewrite hlookup_insert_ne by done.
    rewrite hlookup_insert_eq. eauto.
  - intros l [x Hx].
    assert (h1 !! l = Some x) as Hl1.
    { destruct Hcase as [(_ & al & _ & Hal & ->)|(_ & _ & ->)]; [|done].
      rewrite hlookup_insert_ne; [done|congruence]. }
    rewrite !hlookup_insert_ne; congruence.
  - destruct parent as [| |b|z| |s|p]; try done.
    simpl. by destruct (truthy (read h p "domain")).
Qed.

(** X4: two constructions share nothing: the frames differ, each has a
    [children] object of its own, the [attributes] defaults of two calls
    that leave [attributes] out are two objects, and an attach to the
    first frame changes neither the second frame nor its [children]. *)
Theorem createTaxonFrame_twice_disjoint (h h1 h2 : heap) o1 p1 o2 p2 f1 f2 :
  valid h p1 ->
  createTaxonFrame o1 p1 h = Some (VObj f1, h1) ->
  valid h1 p2 ->
  createTaxonFrame o2 p2 h1 = Some (VObj f2, h2) ->
  f1 <> f2 /\
  exists c1 c2,
    field h2 f1 "children" = Some (VObj c1) /\
    field h2 f2 "children" = Some (VObj c2) /\
    c1 <> c2 /\
    (attributes o1 = VUndefined -> attributes o2 = VUndefined ->
     exists a1 a2,
       field h2 f1 "attributes" = Some (VObj a1) /\
       field h2 f2 "attributes" = Some (VObj a2) /\ a1 <> a2) /\
    (forall k x h3,
       attachChild (VObj f1) k x h2 = Some (tt, h3) ->
       h3 !! f2 = h2 !! f2 /\ h3 !! c2 = h2 !! c2).
Proof.
  intros Hv1 Hrun1 Hv2 Hrun2.
  destruct (createTaxonFrame_shape _ _ _ _ _ Hv1 Hrun1)
    as (c1 & a1 & _ & _ & Hcf1 & Hch1 & Hc1 & Hat1 & _ & Hdef1 & _).
  destruct (createTaxonFrame_shape _ _ _ _ _ Hv2 Hrun2)
    as (c2 & a2 & Hf2 & Hc2new & Hcf2 & Hch2 & Hc2 & Hat2 & _ & Hdef2
        & Hkeep2 & _).
  assert (is_Some (h1 !! f1)) as Hf1.
  { unfold field in Hch1. destruct (h1 !! f1); [eauto|done]. }
  assert (forall k, field h2 f1 k = field h1 f1 k) as Hsame.
  { intros k. unfold field. by rewrite Hkeep2. }
  assert (f1 <> f2) by (intros ->; destruct Hf1; congruence).
  assert (c1 <> c2) by congruence.
  assert (c1 <> f2) by congruence.
  split; [done|]. exists c1, c2. rewrite Hsame.
  do 3 (split; [done|]). split.
  - intros Hu1 Hu2.
    destruct (Hdef1 Hu1) as (al1 & -> & _ & Hal1).
    destruct (Hdef2 Hu2) as (al2 & -> & Hal2 & _).
    exists al1, al2. rewrite Hsame. do 2 (split; [done|]).
    intros ->. destruct Hal1. congruence.
  - intros k x h3 Hatt.
    assert (field h2 f1 "children" = Some (VObj c1)) as Hch by
      (by rewrite Hsame).
    apply attachChild_inv in Hatt as (p' & [= <-] & _ & Hset).
    rewrite (read_own _ _ _ _ Hch) in Hset.
    split; apply (set_elsewhere _ _ _ _ _ _ Hset); congruence.
Qed.

(** Two frames constructed from the empty heap, the second with the
    first as its parent. *)
Lemma createTaxonFrame_twice_disjoint_witness :
  exists h1 h2,
    createTaxonFrame
      (Options (VStr "Fungi") (VStr "Kingdom") VUndefined VUndefined)
      VUndefined ∅ = Some (VObj 2, h1) /\
    createTaxonFrame
      (Options (VStr "Ascomycota") (VStr "Phylum") VUndefined VUndefined)
      (VObj 2) h1 = Some (VObj 5, h2) /\
    2 <> 5 /\
    exists c1 c2,
      field h2 2 "children" = Some (VObj c1) /\
      field h2 5 "children" = Some (VObj c2) /\
      c1 <> c2 /\
      (VUndefined = VUndefined -> VUndefined = VUndefined ->
       exists a1 a2,
         field h2 2 "attributes" = Some (VObj a1) /\
         field h2 5 "attributes" = Some (VObj a2) /\ a1 <> a2) /\
      (forall k x h3,
         attachChild (VObj 2) k x h2 = Some (tt, h3) ->
         h3 !! 5 = h2 !! 5 /\ h3 !! c2 = h2 !! c2).
Proof.
  do 2 eexists. split; [vm_compute; reflexivity|].
  split; [vm_compute; reflexivity|].
  eapply (createTaxonFrame_twice_disjoint ∅ _ _
            (Options (VStr "Fungi") (VStr "Kingdom") VUndefined VUndefined)
            VUndefined
            (Options (VStr "Ascomycota") (VStr "Phylum")
               VUndefined VUndefined)
            (VObj 2) 2 5).
  - exact I.
  - vm_compute. reflexivity.
  - vm_compute. eauto.
  - vm_compute. reflexivity.
Defined.

(** X5: [createTaxonFrame] never gives a frame a [domain], so a frame
    constructed with a newly constructed frame as its parent has no
    [inheritedDomain], even when that parent has one. *)
Theorem inheritedDomain_one_level (h h1 h2 : heap) o1 p1 o2 f g :
  valid h p1 ->
  createTaxonFrame o1 p1 h = Some (VObj f, h1) ->
  createTaxonFrame o2 (VObj f) h1 = Some (VObj g, h2) ->
  field h1 f "domain" = None /\
  field h2 g "inheritedDomain" = None.
Proof.
  intros Hv1 Hrun1 Hrun2.
  destruct (createTaxonFrame_shape _ _ _ _ _ Hv1 Hrun1)
    as (c1 & a1 & _ & _ & _ & Hch1 & _ & _ & Hdom & _ & _ & Hp1 & Hpf & _).
  split; [done|].
  assert (valid h1 (VObj f)) as Hv2.
  { simpl. unfold field in Hch1. destruct (h1 !! f); [eauto|done]. }
  destruct (createTaxonFrame_shape _ _ _ _ _ Hv2 Hrun2)
    as (c2 & a2 & _ & _ & _ & _ & _ & _ & _ & _ & _ & _ & _ & _ & ->).
  rewrite read_plain, Hdom; [done|].
  intros q. unfold proto_of. by rewrite Hp1, Hpf.
Qed.

(** A phylum under the loaded root, which inherits, and a class under
    that phylum, which does not. *)
Lemma inheritedDomain_one_level_witness :
  exists h1 h2,
    createTaxonFrame
      (Options (VStr "Ascomycota") (VStr "Phylum") VUndefined VUndefined)
      (VObj 2) taxonomy_heap = Some (VObj 101, h1) /\
    field h1 101 "inheritedDomain" = Some (VStr "Eukaryota") /\
    field h1 101 "domain" = None /\
    field h2 104 "inheritedDomain" = None.
Proof.
  do 2 eexists. split; [vm_compute; reflexivity|].
  split; [vm_compute; reflexivity|].
  eapply (inheritedDomain_one_level taxonomy_heap _ _
            (Options (VStr "Ascomycota") (VStr "Phylum")
               VUndefined VUndefined)
            (VObj 2)
            (Options (VStr "Saccharomycetes") (VStr "Class")
               VUndefined VUndefined)
            101 104).
  - vm_compute. eauto.
  - vm_compute. reflexivity.
  - vm_compute. reflexivity.
Defined.

(** *** One parent each *)

Lemma edges_complete (h : heap) p k c :
  child_at h p k c -> In (p, k, c) (edges h).
Proof.
  intros Hk. pose proof Hk as (cs & (po & Ep & _)%field_Some & _).
  unfold edges. apply in_flat_map. exists (p, po). split.
  - apply list_elem_of_In. by apply (elem_of_map_to_list (objects h)).
  - apply in_map_iff. exists (k, c). split; [done|].
    by apply child_entries_spec.
Qed.

Lemma single_parent_sound (h : heap) p1 k1 p2 k2 c :
  single_parent h = true ->
  child_at h p1 k1 c -> child_at h p2 k2 c -> p1 = p2 /\ k1 = k2.
Proof.
  intros Hnd%bool_decide_eq_true H1%edges_complete H2%edges_complete.
  assert (forall (l : list (loc * string * loc)) x y,
            NoDup (map snd l) -> In x l -> In y l -> snd x = snd y -> x = y)
    as Hinj.
  { induction l as [|z l IH]; [done|]. simpl.
    intros x y Hl%NoDup_cons [->|Hx] [->|Hy] Hxy; try done.
    - destruct Hl as [Hz _]. exfalso. apply Hz. rewrite Hxy.
      apply list_elem_of_In. by apply in_map.
    - destruct Hl as [Hz _]. exfalso. apply Hz. rewrite <- Hxy.
      apply list_elem_of_In. by apply in_map.
    - apply IH; tauto. }
  assert ((p1, k1, c) = (p2, k2, c)) as [= -> ->]; [|done].
  by apply (Hinj (edges h)).
Qed.

(** X6: in the exported tree no frame is linked twice: a frame has one
    parent, and is stored there under one key. *)
Theorem fungiTaxonomy_single_parent p1 k1 p2 k2 c :
  child_at taxonomy_heap p1 k1 c ->
  child_at taxonomy_heap p2 k2 c ->
  p1 = p2 /\ k1 = k2.
Proof. apply single_parent_sound. vm_compute. reflexivity. Qed.

(** The first phylum, found under the root twice over. *)
Lemma fungiTaxonomy_single_parent_witness :
  2 = 2 /\ "Chytridiomycota" = "Chytridiomycota".
Proof.
  apply (fungiTaxonomy_single_parent 2 "Chytridiomycota" 2
           "Chytridiomycota" 5).
  - exists 1. vm_compute. done.
  - exists 1. vm_compute. done.
Defined.


(** *** Where a link shows *)

Lemma Object_keys_of_keys {A B} (o : list (string * A))
  (o' : list (string * B)) :
  map fst o = map fst o' -> Object_keys o = Object_keys o'.
Proof.
  revert o'. unfold Object_keys, Object_entries.
  assert (forall n k (v : A) (w : B) l l',
    map fst l = map fst l' ->
    map fst (map snd l) = map fst (map snd l') ->
    map fst (insert_index n (k, v) l) = map fst (insert_index n (k, w) l') /\
    map fst (map snd (insert_index n (k, v) l)) =
    map fst (map snd (insert_index n (k, w) l'))) as Hins.
  { intros n k v w l. induction l as [|[m e] l IH]; intros [|[m' e'] l'];
      simpl; try done.
    intros [= <- H1] [= H2 H3]. destruct (n <? m)%N; simpl.
    - by rewrite H1, H2, H3.
    - destruct (IH l' H1 H3) as [-> ->]. by rewrite H2. }
  induction o as [|[k v] o IH]; intros [|[k' w] o']; simpl; try done.
  intros [= <- Hk].
  assert (map fst (index_entries o) = map fst (index_entries o') /\
          map fst (map snd (index_entries o))
          = map fst (map snd (index_entries o')) /\
          map fst (string_entries o) = map fst (string_entries o'))
    as (H1 & H2 & H3).
  { clear IH. revert o' Hk.
    induction o as [|[k0 v0] o IH]; intros [|[k0' w0] o']; simpl; try done.
    intros [= <- Hk]. destruct (IH o' Hk) as (H1 & H2 & H3).
    destruct (array_index k0) as [n|]; simpl.
    - destruct (Hins n k0 v0 w0 _ _ H1 H2) as [-> ->]. done.
    - by rewrite H3. }
  rewrite !map_app in *.
  destruct (array_index k) as [n|]; simpl.
  - destruct (Hins n k v w _ _ H1 H2) as [_ ->]. by rewrite H3.
  - by rewrite H2, H3.
Qed.

Lemma set_prop_present_keys {A} (o : list (string * A)) k v :
  is_Some (get_prop o k) -> map fst (set_prop o k v) = map fst o.
Proof.
  induction o as [|[k' v'] o IH]; simpl; [by intros [? ?]|].
  destruct (String.eqb k' k) eqn:E; simpl.
  - apply String.eqb_eq in E as ->. done.
  - intros H. by rewrite IH.
Qed.

Lemma set_prop_absent {A} (o : list (string * A)) k v :
  get_prop o k = None -> set_prop o k v = o ++ [(k, v)].
Proof.
  induction o as [|[k' v'] o IH]; simpl; [done|].
  destruct (String.eqb k' k); [done|]. intros H. by rewrite IH.
Qed.

Lemma Object_keys_snoc {A} (o : list (string * A)) k v :
  array_index k = None -> Object_keys (o ++ [(k, v)]) = Object_keys o ++ [k].
Proof.
  intros Hk. unfold Object_keys, Object_entries.
  assert (index_entries (o ++ [(k, v)]) = index_entries o /\
          string_entries (o ++ [(k, v)]) = string_entries o ++ [(k, v)])
    as [-> ->].
  { induction o as [|[k' v'] o [IH1 IH2]]; simpl.
    - by rewrite Hk.
    - rewrite IH1, IH2. by destruct (array_index k'). }
  by rewrite app_assoc, !map_app.
Qed.

(** X7: where a child attached under a key other than [__proto__] is
    listed: an attach under a key the parent already uses leaves the
    order of the keys as it was, the child taking the place of the one
    it replaces; an attach under a new key that is not an array index
    puts the key last. *)
Theorem attachChild_display_order (h : heap) p cs o k c :
  k <> "__proto__" ->
  field h p "children" = Some (VObj cs) ->
  h !! cs = Some o ->
  exists h' o',
    attachChild (VObj p) k c h = Some (tt, h') /\
    h' !! cs = Some o' /\
    (is_Some (get_prop o k) -> Object_keys o' = Object_keys o) /\
    (get_prop o k = None -> array_index k = None ->
     Object_keys o' = Object_keys o ++ [k]).
Proof.
  intros Hproto Hcs Ho.
  exists (<[cs := set_prop o k c]> h), (set_prop o k c).
  split; [by apply attachChild_run|].
  split; [apply hlookup_insert_eq|]. split.
  - intros Hk. by apply Object_keys_of_keys, set_prop_present_keys.
  - intros Hk Hidx. rewrite set_prop_absent by done.
    by apply Object_keys_snoc.
Qed.

(** One more phylum under the loaded root: it is listed after the eight
    children the module links. *)
Lemma attachChild_display_order_witness :
  exists h' o',
    attachChild (VObj 2) "Ascomycota" (VObj 5) taxonomy_heap
      = Some (tt, h') /\
    h' !! 1 = Some o' /\
    (is_Some (get_prop (default [] (taxonomy_heap !! 1)) "Ascomycota") ->
     Object_keys o' = Object_keys (default [] (taxonomy_heap !! 1))) /\
    (get_prop (default [] (taxonomy_heap !! 1)) "Ascomycota" = None ->
     array_index "Ascomycota" = None ->
     Object_keys o' =
       Object_keys (default [] (taxonomy_heap !! 1)) ++ ["Ascomycota"]).
Proof.
  apply (attachChild_display_order taxonomy_heap 2 1
           (default [] (taxonomy_heap !! 1)) "Ascomycota" (VObj 5)).
  - done.
  - vm_compute. reflexivity.
  - vm_compute. reflexivity.
Defined.

(** *** The key [__proto__] *)

(** X15: an attach under the key [__proto__], on a parent whose
    [children] is an object as [createTaxonFrame] makes it, writes no
    entry: a child that is neither an object nor [null] is ignored; the
    [children] object itself as the child is a [TypeError]; and a frame
    as the child becomes the prototype of the [children] object, which
    from then on reads the properties of that frame as its own. *)
Theorem attachChild_proto_key (h : heap) p cs o c :
  field h p "children" = Some (VObj cs) ->
  h !! cs = Some o ->
  get_prop o "__proto__" = None ->
  proto_of h cs = ObjectPrototype ->
  match c with
  | VNull =>
      exists h', attachChild (VObj p) "__proto__" c h = Some (tt, h') /\
                 objects h' = objects h /\ proto_of h' cs = NullPrototype
  | VObj l =>
      (l = cs -> attachChild (VObj p) "__proto__" c h = None) /\
      (l <> cs -> (forall q, proto_of h l <> ProtoObj q) ->
       exists h', attachChild (VObj p) "__proto__" c h = Some (tt, h') /\
                  objects h' = objects h /\ proto_of h' cs = ProtoObj l /\
                  forall k v, get_prop o k = None ->
                              field h l k = Some v -> read h' cs k = v)
  | _ => attachChild (VObj p) "__proto__" c h = Some (tt, h)
  end.
Proof.
  intros Hcs Ho Hown Hproto.
  assert (attachChild (VObj p) "__proto__" c h = set_prototype cs c h)
    as ->.
  { unfold attachChild, bind. simpl. rewrite (read_own _ _ _ _ Hcs).
    unfold field in Hcs. destruct (h !! p) as [po|]; [|done].
    unfold set. rewrite Ho.
    assert (finds_proto_setter h (chain_fuel h) cs = true) as ->; [|done].
    destruct (chain_fuel h); simpl; by rewrite Ho, Hown, Hproto. }
  destruct c as [| |b|z| |s|l]; try done.
  - eexists. split; [done|]. split; [done|].
    unfold proto_of. simpl. by rewrite lookup_insert_eq.
  - unfold set_prototype. rewrite Hproto.
    destruct (decide (ObjectPrototype = ProtoObj l)) as [|_]; [done|].
    split.
    + intros ->. destruct (chain_fuel h); simpl; by rewrite Nat.eqb_refl.
    + intros Hne Hplain.
      assert (on_chain h (chain_fuel h) l cs = false) as ->.
      { destruct (chain_fuel h); simpl;
          destruct (proto_of h l) as [| |q] eqn:E;
          rewrite ?orb_false_r; try (apply Nat.eqb_neq; congruence).
        all: by destruct (Hplain q). }
      eexists. split; [done|]. split; [done|]. split.
      * unfold proto_of. simpl. by rewrite lookup_insert_eq.
      * intros k v Hk Hv. unfold read.
        erewrite (proj2 (read_found _ _ _ _)); [done|].
        exists 1. unfold field in Hv.
        destruct (h !! l) as [ol|] eqn:El; [|done].
        eapply found_up; [exact Ho|exact Hk| |].
        -- unfold proto_of. simpl. by rewrite lookup_insert_eq.
        -- by eapply found_own.
Qed.

(** The first phylum attached to the loaded root under [__proto__]: the
    root's [children] keeps its eight entries and reads the properties
    of the phylum. *)
Lemma attachChild_proto_key_witness :
  (5 = 1 ->
   attachChild (VObj 2) "__proto__" (VObj 5) taxonomy_heap = None) /\
  (5 <> 1 -> (forall q, proto_of taxonomy_heap 5 <> ProtoObj q) ->
   exists h', attachChild (VObj 2) "__proto__" (VObj 5) taxonomy_heap
                = Some (tt, h') /\
              objects h' = objects taxonomy_heap /\
              proto_of h' 1 = ProtoObj 5 /\
              forall k v,
                get_prop (default [] (taxonomy_heap !! 1)) k = None ->
                field taxonomy_heap 5 k = Some v -> read h' 1 k = v).
Proof.
  apply (attachChild_proto_key taxonomy_heap 2 1
           (default [] (taxonomy_heap !! 1)) (VObj 5)).
  - vm_compute. reflexivity.
  - vm_compute. reflexivity.
  - vm_compute. reflexivity.
  - vm_compute. reflexivity.
Defined.

End StoreLaws.

(** ** More on the tree view *)

Module ViewLaws.
Import View ViewFacts.

(** *** Clicks *)

Lemma press_expand data level st hue :
  press data level st (ExpandControl, hue) =
    if has_children data
    then State (negb (expanded st)) (showDescription st) else st.
Proof.
  unfold press. simpl. rewrite click_expand.
  by destruct (has_children data).
Qed.

Lemma press_description data level st hue :
  press data level st (DescriptionControl, hue) =
    if has_description data
    then State (expanded st) (negb (showDescription st)) else st.
Proof.
  unfold press. simpl. rewrite click_description.
  by destruct (has_description data).
Qed.

(** X8: after any sequence of clicks, [expanded] has changed exactly when the
    node has children and its expand control was clicked an odd number
    of times, and [showDescription] exactly when the node has a
    description and its toggle was clicked an odd number of times: a
    node without children never expands, the two cells never influence
    each other, and the order of the clicks does not matter. *)
Theorem presses_parity data level evs st :
  expanded (presses data level evs st) =
    (if has_children data
     then xorb (expanded st) (Nat.odd (clicks_on ExpandControl evs))
     else expanded st) /\
  showDescription (presses data level evs st) =
    (if has_description data
     then xorb (showDescription st)
            (Nat.odd (clicks_on DescriptionControl evs))
     else showDescription st).
Proof.
  revert st. induction evs as [|[c hue] evs IH]; intros st.
  - simpl. split.
    + destruct (has_children data); [|done]. by rewrite xorb_false_r.
    + destruct (has_description data); [|done]. by rewrite xorb_false_r.
  - change (presses data level ((c, hue) :: evs) st)
      with (presses data level evs (press data level st (c, hue))).
    destruct (IH (press data level st (c, hue))) as [-> ->].
    unfold clicks_on.
    destruct c; cbn [List.filter fst same_control length].
    + rewrite press_expand, Nat.odd_succ, <- Nat.negb_odd.
      destruct (has_children data), (has_description data); simpl;
        split; try done.
      all: match goal with
           | |- context [Nat.odd ?n] => destruct (Nat.odd n)
           end; by destruct (expanded st).
    + rewrite press_description, Nat.odd_succ, <- Nat.negb_odd.
      destruct (has_children data), (has_description data); simpl;
        split; try done.
      all: match goal with
           | |- context [Nat.odd ?n] => destruct (Nat.odd n)
           end; by destruct (showDescription st).
Qed.

(** *** The name shown *)

(** X9: the name shown has the length of the name given, holds a space
    wherever the name holds an underscore and the name's own character
    everywhere else, so no underscore is left; normalising twice is
    normalising once. *)
Theorem replace_underscores_pointwise s :
  String.length (replace_underscores s) = String.length s /\
  (forall n,
     String.get n (replace_underscores s) =
     (fun a => if Ascii.eqb a "_" then " "%char else a) <$> String.get n s) /\
  (forall n, String.get n (replace_underscores s) <> Some "_"%char) /\
  replace_underscores (replace_underscores s) = replace_underscores s.
Proof.
  assert (forall n,
     String.get n (replace_underscores s) =
     (fun a => if Ascii.eqb a "_" then " "%char else a) <$> String.get n s)
    as Hget.
  { induction s as [|a s IH]; intros n; [done|].
    destruct n as [|n]; simpl; [done|]. apply IH. }
  split; [|split; [done|split]].
  - clear Hget. induction s as [|a s IH]; simpl; [done|]. by rewrite IH.
  - intros n. rewrite Hget. destruct (String.get n s) as [a|]; [|done].
    simpl. destruct (Ascii.eqb a "_") eqn:E; [done|].
    apply Ascii.eqb_neq in E. congruence.
  - clear Hget. induction s as [|a s IH]; simpl; [done|].
    rewrite IH. f_equal.
    by destruct (Ascii.eqb a "_") eqn:E; [|rewrite E].
Qed.

(** *** Children, once each *)

(** X10: an expanded node hands every entry of its [children] to the
    component exactly once, each at [level + 1]; when no key is an array
    index, in the order the entries were created. *)
Theorem children_each_once data level st hue cs :
  expanded st = true ->
  children data = Some cs ->
  Permutation
    (map (fun x => (fst (fst x), snd (fst x)))
       (components (TaxonomyLevel data level st hue))) cs /\
  Forall (fun x => snd x = (level + 1)%float)
    (components (TaxonomyLevel data level st hue)) /\
  (Forall (fun e => array_index (fst e) = None) cs ->
   map (fun x => (fst (fst x), snd (fst x)))
     (components (TaxonomyLevel data level st hue)) = cs).
Proof.
  intros He Hcs. rewrite components_TaxonomyLevel, He, Hcs. simpl.
  assert (forall l : list (string * Taxon),
    map (fun x : string * Taxon * float => (fst (fst x), snd (fst x)))
      (map (fun '(k, c) => (k, c, (level + 1)%float)) l) = l) as Hmap.
  { induction l as [|[k c] l IH]; simpl; [done|]. by rewrite IH. }
  rewrite Hmap. split; [apply Object_entries_perm|]. split.
  - apply List.Forall_forall. intros x Hx.
    apply in_map_iff in Hx as ([k c] & <- & _). done.
  - apply Object_entries_creation_order.
Qed.

(** The sample root, expanded. *)
Lemma children_each_once_witness :
  Permutation
    (map (fun x => (fst (fst x), snd (fst x)))
       (components (TaxonomyLevel kingdomFungi 0 (State true false) 0)))
    [("Chytridiomycota", phylumChytridiomycota)] /\
  Forall (fun x => snd x = (0 + 1)%float)
    (components (TaxonomyLevel kingdomFungi 0 (State true false) 0)) /\
  (Forall (fun e => array_index (fst e) = None)
     [("Chytridiomycota", phylumChytridiomycota)] ->
   map (fun x => (fst (fst x), snd (fst x)))
     (components (TaxonomyLevel kingdomFungi 0 (State true false) 0))
   = [("Chytridiomycota", phylumChytridiomycota)]).
Proof.
  apply (children_each_once kingdomFungi 0 (State true false) 0
           [("Chytridiomycota", phylumChytridiomycota)]).
  - reflexivity.
  - reflexivity.
Defined.


(** *** What the rendered tree does not depend on *)

Lemma Object_entries_map_values {A B} (g : A -> B) (o : list (string * A)) :
  Object_entries (map (fun kc => (fst kc, g (snd kc))) o) =
  map (fun kc => (fst kc, g (snd kc))) (Object_entries o).
Proof.
  assert (forall n (e : string * A) l,
    insert_index n (fst e, g (snd e))
      (map (fun x => (fst x, (fst (snd x), g (snd (snd x))))) l) =
    map (fun x => (fst x, (fst (snd x), g (snd (snd x)))))
      (insert_index n e l)) as Hins.
  { intros n e l. induction l as [|[m e'] l IH]; simpl; [done|].
    destruct (n <? m)%N; simpl; [done|]. by rewrite IH. }
  assert (index_entries (map (fun kc => (fst kc, g (snd kc))) o) =
          map (fun x => (fst x, (fst (snd x), g (snd (snd x)))))
            (index_entries o)) as Hidx.
  { induction o as [|[k v] o IH]; simpl; [done|].
    destruct (array_index k) as [n|]; [|apply IH].
    rewrite IH. apply (Hins n (k, v)). }
  assert (string_entries (map (fun kc => (fst kc, g (snd kc))) o) =
          map (fun kc => (fst kc, g (snd kc))) (string_entries o)) as Hstr.
  { clear Hidx. induction o as [|[k v] o IH]; simpl; [done|].
    destruct (array_index k) as [n|]; [apply IH|]. simpl. by rewrite IH. }
  unfold Object_entries. rewrite Hidx, Hstr, map_app, !map_map. done.
Qed.

Lemma height_forget t : height (forget_attributes t) = height t.
Proof.
  revert t. fix IH 1. intros [n r d a [cs|]]; simpl; [|done].
  f_equal. f_equal. rewrite map_map. simpl.
  induction cs as [|[k c] cs IHcs]; simpl; [done|].
  by rewrite IH, IHcs.
Qed.

(** The rendered tree of a tree without its attributes, at another
    level. *)
Lemma render_tree_forget fuel ui hues path t level level' :
  height t <= fuel ->
  render_tree fuel ui hues path (forget_attributes t) level' =
  render_tree fuel ui hues path t level.
Proof.
  revert path t level level'.
  induction fuel as [|fuel IH]; intros path [n r d a ch] level level' Hh.
  - destruct ch as [cs|]; simpl in Hh; [lia|].
    reflexivity.
  - assert (forall cs, ch = Some cs ->
      map (mount (S fuel) ui hues path)
        (map (fun '(k, c) => TaxonomyLevelElem k c (level' + 1))
           (Object_entries
              (map (fun kc => (fst kc, forget_attributes (snd kc))) cs))) =
      map (mount (S fuel) ui hues path)
        (map (fun '(k, c) => TaxonomyLevelElem k c (level + 1))
           (Object_entries cs))) as Hkids.
    { intros cs ->. rewrite Object_entries_map_values, !map_map.
      apply map_ext_in. intros [k c] Hin.
      change (render_tree fuel ui hues (path ++ [k]) (forget_attributes c)
                (level' + 1) =
              render_tree fuel ui hues (path ++ [k]) c (level + 1)).
      apply IH.
      apply (proj1 (Object_entries_In _ _)) in Hin.
      pose proof (height_child (mkTaxon n r d a (Some cs)) cs k c
                    eq_refl Hin).
      lia. }
    unfold render_tree, TaxonomyLevel, has_children, has_description.
    cbn [forget_attributes name rank description children].
    generalize (getRandomColor (hues path)). intros bg.
    destruct ch as [cs|], d as [d|], (expanded (ui path)),
      (showDescription (ui path));
      rewrite ?Object_keys_length, ?length_map;
      try destruct (0 <? length cs)%nat;
      cbn [app when andb negb];
      try destruct (String.eqb d "");
      cbn [app when andb negb];
      repeat (rewrite mount_unfold; cbn [map]);
      try reflexivity.
    all: by rewrite (Hkids cs eq_refl).
Qed.

(** X11: the level handed down the tree is not shown: with fuel for the
    height of the tree, the rendered tree is the same at every level. *)
Theorem render_tree_any_level fuel ui hues path t level level' :
  height t <= fuel ->
  render_tree fuel ui hues path t level =
  render_tree fuel ui hues path t level'.
Proof.
  intros Hh.
  rewrite <- (render_tree_forget fuel ui hues path t level level) by done.
  by apply render_tree_forget.
Qed.

(** The sample chain at levels 0 and 7. *)
Lemma render_tree_any_level_witness :
  render_tree 3 all_expanded (fun _ => 0%Z) [] kingdomFungi 0 =
  render_tree 3 all_expanded (fun _ => 0%Z) [] kingdomFungi 7.
Proof.
  apply (render_tree_any_level 3 all_expanded (fun _ => 0%Z) []
           kingdomFungi 0 7).
  vm_compute. lia.
Defined.

(** X12: the attributes of a node are never shown: two trees that differ in
    attributes only, at any depth, render to the same tree. *)
Theorem attributes_not_rendered fuel ui hues path t t' level :
  forget_attributes t = forget_attributes t' ->
  height t <= fuel ->
  render_tree fuel ui hues path t level =
  render_tree fuel ui hues path t' level.
Proof.
  intros Heq Hh.
  assert (height t' <= fuel) as Hh'.
  { by rewrite <- (height_forget t'), <- Heq, height_forget. }
  rewrite <- (render_tree_forget fuel ui hues path t level level) by done.
  rewrite <- (render_tree_forget fuel ui hues path t' level level) by done.
  by rewrite Heq.
Qed.

(** The sample genus with and without its habitat. *)
Lemma attributes_not_rendered_witness :
  render_tree 1 all_expanded (fun _ => 0%Z) [] genusChytridium 4 =
  render_tree 1 all_expanded (fun _ => 0%Z) []
    (mkTaxon "Chytridium" "Genus" None None (Some [])) 4.
Proof.
  apply (attributes_not_rendered 1 all_expanded (fun _ => 0%Z) []
           genusChytridium
           (mkTaxon "Chytridium" "Genus" None None (Some [])) 4).
  - reflexivity.
  - vm_compute. lia.
Defined.

(** X13: the hue drawn for a render reaches nothing but the [style]: apart
    from the styles, one render and the whole rendered tree are the same
    whatever hues are drawn. *)
Theorem hue_only_in_style data level :
  (forall st hue hue',
     unstyle (TaxonomyLevel data level st hue) =
     unstyle (TaxonomyLevel data level st hue')) /\
  (forall fuel ui hues hues' path,
     unstyle (render_tree fuel ui hues path data level) =
     unstyle (render_tree fuel ui hues' path data level)).
Proof.
  split.
  - intros st hue hue'. unfold TaxonomyLevel.
    generalize (getRandomColor hue), (getRandomColor hue').
    intros bg bg'. reflexivity.
  - intros fuel ui hues hues'. revert data level.
    assert (forall fuel0 level0 path0,
      (forall k c,
         unstyle (mount fuel0 ui hues path0
                    (TaxonomyLevelElem k c (level0 + 1))) =
         unstyle (mount fuel0 ui hues' path0
                    (TaxonomyLevelElem k c (level0 + 1)))) ->
      forall data0,
        unstyle (render_tree fuel0 ui hues path0 data0 level0) =
        unstyle (render_tree fuel0 ui hues' path0 data0 level0)) as Hstep.
    { intros fuel0 level0 path0 Hkid data0.
      assert (forall cs,
        map unstyle
          (map (mount fuel0 ui hues path0)
             (map (fun '(k, c) => TaxonomyLevelElem k c (level0 + 1)) cs)) =
        map unstyle
          (map (mount fuel0 ui hues' path0)
             (map (fun '(k, c) => TaxonomyLevelElem k c (level0 + 1)) cs)))
        as Hkids.
      { intros cs. rewrite !map_map. apply map_ext. intros [k c].
        apply Hkid. }
      unfold render_tree, TaxonomyLevel.
      generalize (getRandomColor (hues path0)),
        (getRandomColor (hues' path0)).
      intros bg bg'.
      destruct (has_children data0), (has_description data0),
        (description data0) as [d|], (children data0) as [cs|],
        (expanded (ui path0)), (showDescription (ui path0));
      cbn [app when andb negb];
      try destruct (String.eqb d "");
      cbn [app when andb negb];
      repeat (rewrite mount_unfold; cbn [map]);
      cbn [unstyle map];
      rewrite ?Hkids; reflexivity. }
    induction fuel as [|fuel IH]; intros data level path;
      apply Hstep; intros k c.
    + reflexivity.
    + apply (IH c (level + 1)%float (path ++ [k])).
Qed.

(** *** One row for every node *)

Lemma length_labels t : length (labels t) = size t.
Proof.
  revert t. fix IH 1. intros [n r d a [cs|]]; simpl; [|done].
  f_equal.
  induction cs as [|[k c] cs IHcs]; simpl; [done|].
  by rewrite length_app, IH, IHcs.
Qed.

(** X14: with every node expanded and fuel for the height of the tree, the
    rows of the rendered tree are the row headers of the nodes of the
    tree, each node once: no node is left out and none is rendered
    twice, so there are as many rows as nodes; and when no key is an
    array index the rows come parent before child, the children in
    creation order. *)
Theorem one_row_per_node fuel hues path t level :
  height t <= fuel ->
  Permutation (row_labels (render_tree fuel all_expanded hues path t level))
    (labels t) /\
  length (row_labels (render_tree fuel all_expanded hues path t level))
  = size t /\
  (plain_keys t = true ->
   row_labels (render_tree fuel all_expanded hues path t level) = labels t).
Proof.
  intros Hh.
  pose proof (rows_all_expanded fuel hues path t level Hh) as Hperm.
  split; [done|]. split.
  - by rewrite (Permutation_length Hperm), length_labels.
  - intros Hp. by apply rows_all_expanded_plain.
Qed.

(** The sample chain: three nodes, three rows. *)
Lemma one_row_per_node_witness :
  Permutation
    (row_labels
       (render_tree 3 all_expanded (fun _ => 0%Z) [] kingdomFungi 0))
    (labels kingdomFungi) /\
  length (row_labels
            (render_tree 3 all_expanded (fun _ => 0%Z) [] kingdomFungi 0))
  = size kingdomFungi /\
  (plain_keys kingdomFungi = true ->
   row_labels (render_tree 3 all_expanded (fun _ => 0%Z) [] kingdomFungi 0)
   = labels kingdomFungi).
Proof.
  apply (one_row_per_node 3 (fun _ => 0%Z) [] kingdomFungi 0).
  vm_compute. lia.
Defined.

(** A tree whose keys are array indices, created out of order: every node
    is shown once, the children by ascending index. *)
Example index_keyed_rows :
  let leaf n := mkTaxon n "Genus" None None None in
  let t := mkTaxon "Fungi" "Kingdom" None None
             (Some [("2", leaf "Two"); ("1", leaf "One")]) in
  row_labels (render_tree 1 all_expanded (fun _ => 0%Z) [] t 0)
  = ["Fungi (Kingdom)"; "One (Genus)"; "Two (Genus)"] /\
  labels t = ["Fungi (Kingdom)"; "Two (Genus)"; "One (Genus)"].
Proof. vm_compute. done. Qed.

End ViewLaws.
